(** * The retrieval / ranking / context pipeline of the memory backend

    A shallow embedding of these modules of [services/api/src]:

    - [utils/token_counter.py] and [core/context_builder.py]
      (token budgets, greedy packing, adaptive reallocation, truncation),
    - [core/hybrid_ranker.py] (deduplication, scoring, ordering, the
      reranking with the conversation context, the weights by query type),
    - [core/query_analyzer.py] (rule-based query analysis),
    - [core/keyword_search.py] (tokenization) and
      [services/retrieval_service.py] (the memory kinds searched, the
      query of the keyword search).

    Conventions of the embedding.

    - A Python [int] is a [Z].  Python's [//] on a positive divisor is
      [Z.div].
    - A result dictionary ([dict[str, Any]]) is a record whose fields are
      the keys the code reads; a field of type [option] is [None] when the
      key is missing, so that [d.get(k, default)] is a [match] on the
      field.  For [memory_id], [match_type] and [entity_context], which
      the code only tests for truth, [None] also stands for the value
      [None].
    - A dictionary whose iteration order is observable ([seen] in the
      ranker) is an association list in insertion order; a dictionary that
      is only looked up ([category_sizes], [base_budgets]) is a [gmap].
    - The ranker's [float]s are real numbers ([R]): the scores use [tanh],
      [exp] and [log], and the properties proved are those of the formulas,
      free of rounding.  The one float exception the code can meet, the
      [OverflowError] of [math.exp] on a result above [2 ^ 1024], is
      written out.  The analyzer's confidence only adds decimal constants
      and is kept in [Q], where it computes.
    - A call that raises returns [None].  The models of models/memory.py
      are pydantic models; the check pydantic runs on a string given for
      a [UUID] field is a parameter ([is_uuid]) of the functions that
      construct a model.
    - A Python [str] is a [string] of Rocq: code points below 256, with
      Python's classification of exactly these code points
      ([str.isspace], [str.lower], the [\w], [\s], [\d] classes of [re]).
    - A [while] loop whose termination is in question (the one of
      [split_by_tokens]) is a step function on the loop state, iterated, and
      run with a bound on the number of iterations. *)

From Stdlib Require Import ZArith QArith Reals Lra Lia Bool Ascii String List Sorted.
From stdpp Require Import base option list strings gmap.
From Equations Require Import Equations.

Local Open Scope string_scope.
Local Open Scope Z_scope.

(** ** Python helpers *)

(** [x or d] on an optional integer: [None] and [0] are falsy. *)
Definition or_int (x : option Z) (d : Z) : Z :=
  match x with
  | Some v => if v =? 0 then d else v
  | None => d
  end.

(** [s or d] / truthiness of an optional string: [None] and [""] are falsy. *)
Definition truthy_str (s : option string) : bool :=
  match s with
  | Some v => negb (String.eqb v "")
  | None => false
  end.

(** [str.isspace] on the code points below 256. *)
Definition isspace (c : ascii) : bool :=
  let n := N_of_ascii c in
  ((9 <=? n) && (n <=? 13) || (28 <=? n) && (n <=? 32)
   || (n =? 133) || (n =? 160))%N.

(** [str.split()] with no argument: the maximal runs of non-space
    characters.  [cur] is the run being read. *)
Fixpoint split_from (s cur : string) : list string :=
  match s with
  | EmptyString => if String.eqb cur "" then [] else [cur]
  | String c s' =>
      if isspace c
      then (if String.eqb cur "" then split_from s' ""
            else cur :: split_from s' "")
      else split_from s' (cur ++ String c "")
  end.

Definition split (s : string) : list string := split_from s "".

(** ** utils/token_counter.py *)

Module TokenCounter.

(** The tokenizer that [_ensure_initialized] found: [None] when tiktoken
    cannot be imported; an encoder returns [None] on the texts for which
    [encode] raises, and [count] then falls back to the estimate. *)
Definition encoder : Type := option (string -> option nat).

Definition estimate (text : string) : Z :=
  Z.of_nat (String.length text) / 4.

Definition count (enc : encoder) (text : string) : Z :=
  if String.eqb text "" then 0
  else match enc with
       | Some encode =>
           match encode text with
           | Some n => Z.of_nat n
           | None => estimate text
           end
       | None => estimate text
       end.

End TokenCounter.

(** ** core/context_builder.py *)

Module ContextBuilder.
Import TokenCounter.

(** config.py, the token budgets of [settings]. *)
Definition settings_max_context_tokens : Z := 5000.
Definition settings_profile_memory_tokens : Z := 600.
Definition settings_semantic_memory_tokens : Z := 1500.
Definition settings_episodic_memory_tokens : Z := 1500.
Definition settings_procedural_memory_tokens : Z := 400.
Definition settings_entity_memory_tokens : Z := 300.
Definition settings_conversation_history_tokens : Z := 300.

(** A ranked result as the builder reads it: the keys whose value
    decides what the builder does.  Every value has the type that the
    models declare for its key (a string for [content], [category],
    [attribute], ..., a finite number for [reliability]), so that of the
    checks of models/memory.py a result can fail two: [id: UUID], which
    also applies to [conversation_id], and
    [reliability: float, ge=0.0, le=1.0].  The other keys ([user_id],
    [category], [keywords], ...) are copied into the typed memory and
    never read again by the builder. *)
Record memory : Type := {
  memory_id : option string;
  memory_type : option string;
  content : option string;
  attribute : option string;
  value : option string;
  reliability : option Q;
  conversation_id : option string;
}.

(** models/memory.py.  The four models store the [content] they are
    given.  The class body of [ProfileMemory] also defines a property
    [content] (["attribute: value"]); pydantic takes a class attribute
    named like an annotated field for the default of that field and
    removes it from the class, so [mem.content] reads the stored field
    there too. *)
Record ProfileMemory : Type := {
  pm_id : string;
  pm_content : string;
  pm_attribute : string;
  pm_value : string;
}.

Record SemanticMemory : Type := { sm_id : string; sm_content : string }.
Record EpisodicMemory : Type := { em_id : string; em_content : string }.
Record ProceduralMemory : Type := { prm_id : string; prm_content : string }.

Record MemoryContext : Type := {
  profile_memories : list ProfileMemory;
  semantic_memories : list SemanticMemory;
  episodic_memories : list EpisodicMemory;
  procedural_memories : list ProceduralMemory;
  entity_context : option string;
  total_tokens : Z;
  truncated : bool;
}.

(** The attributes set by [ContextBuilder.__init__], together with the
    tokenizer held by [self.token_counter]. *)
Record builder : Type := {
  max_tokens : Z;
  profile_tokens : Z;
  semantic_tokens : Z;
  episodic_tokens : Z;
  procedural_tokens : Z;
  entity_tokens : Z;
  history_tokens : Z;
  token_counter : encoder;
}.

Definition init (enc : encoder)
  (max_tokens profile_tokens semantic_tokens episodic_tokens
   procedural_tokens entity_tokens history_tokens : option Z) : builder :=
  {| max_tokens := or_int max_tokens settings_max_context_tokens;
     profile_tokens := or_int profile_tokens settings_profile_memory_tokens;
     semantic_tokens := or_int semantic_tokens settings_semantic_memory_tokens;
     episodic_tokens := or_int episodic_tokens settings_episodic_memory_tokens;
     procedural_tokens :=
       or_int procedural_tokens settings_procedural_memory_tokens;
     entity_tokens := or_int entity_tokens settings_entity_memory_tokens;
     history_tokens :=
       or_int history_tokens settings_conversation_history_tokens;
     token_counter := enc |}.

(** [_categorize_memories]: the dictionary starts with the four kinds bound
    to empty lists; a result of another kind is skipped. *)
Definition empty_categories : gmap string (list memory) :=
  {[ "profile" := []; "semantic" := []; "episodic" := [];
     "procedural" := [] ]}.

Definition categorize_step (categorized : gmap string (list memory))
  (m : memory) : gmap string (list memory) :=
  let memory_type := default "semantic" (memory_type m) in
  match categorized !! memory_type with
  | Some l => <[memory_type := (l ++ [m])%list]> categorized
  | None => categorized
  end.

Definition _categorize_memories (memories : list memory)
  : gmap string (list memory) :=
  foldl categorize_step empty_categories memories.

(** [categorized.get(kind, [])] *)
Definition bucket (categorized : gmap string (list memory)) (kind : string)
  : list memory :=
  default [] (categorized !! kind).

(** The validation that the constructor of a model runs on the values
    the section builders pass.  [is_uuid] is the check of pydantic (not a
    part of this repository) on a string given for a field of type
    [UUID]; [id=mem.get("memory_id")] passes [None] when the key is
    missing, which no [UUID] field accepts.  [None] is the
    [ValidationError]. *)
Definition valid_id (is_uuid : string -> bool) (id : option string)
  : option string :=
  match id with
  | Some text => if is_uuid text then Some text else None
  | None => None
  end.

(** [reliability=mem.get("reliability", 0.5)] against [ge=0.0, le=1.0]. *)
Definition valid_reliability (reliability : option Q) : bool :=
  match reliability with
  | Some x => Qle_bool 0 x && Qle_bool x 1
  | None => true
  end.

(** [conversation_id=mem.get("conversation_id") or uuid4()] *)
Definition valid_conversation (is_uuid : string -> bool)
  (conversation_id : option string) : bool :=
  match conversation_id with
  | Some text => if String.eqb text "" then true else is_uuid text
  | None => true
  end.

Definition to_profile (is_uuid : string -> bool) (mem : memory)
  (content : string) : option ProfileMemory :=
  id ← valid_id is_uuid (memory_id mem);
  if valid_reliability (reliability mem)
  then Some {| pm_id := id;
               pm_content := content;
               pm_attribute := default "info" (attribute mem);
               pm_value := default content (value mem) |}
  else None.

Definition to_semantic (is_uuid : string -> bool) (mem : memory)
  (content : string) : option SemanticMemory :=
  id ← valid_id is_uuid (memory_id mem);
  if valid_reliability (reliability mem)
  then Some {| sm_id := id; sm_content := content |}
  else None.

Definition to_episodic (is_uuid : string -> bool) (mem : memory)
  (content : string) : option EpisodicMemory :=
  id ← valid_id is_uuid (memory_id mem);
  if valid_conversation is_uuid (conversation_id mem)
     && valid_reliability (reliability mem)
  then Some {| em_id := id; em_content := content |}
  else None.

Definition to_procedural (is_uuid : string -> bool) (mem : memory)
  (content : string) : option ProceduralMemory :=
  id ← valid_id is_uuid (memory_id mem);
  if valid_reliability (reliability mem)
  then Some {| prm_id := id; prm_content := content |}
  else None.

(** The loop shared by the four [_build_*_section] methods: they differ
    only in the typed memory built from [mem] and its [content].
    [current_tokens] is the running count; [break] ends the recursion
    with what was packed; a [ValidationError] of the constructor ends the
    call, and nothing is returned. *)
Fixpoint pack_from {A : Type} (enc : encoder)
  (convert : memory -> string -> option A)
  (memories : list memory) (token_budget current_tokens : Z)
  : option (list A) :=
  match memories with
  | [] => Some []
  | mem :: rest =>
      let content := default "" (content mem) in
      let tokens := count enc content in
      if current_tokens + tokens >? token_budget then Some []
      else
        typed ← convert mem content;
        result ← pack_from enc convert rest token_budget
                   (current_tokens + tokens);
        Some (typed :: result)
  end.

Definition _build_profile_section (is_uuid : string -> bool) (cb : builder)
  (memories : list memory) (token_budget : Z)
  : option (list ProfileMemory) :=
  pack_from (token_counter cb) (to_profile is_uuid) memories token_budget 0.

Definition _build_semantic_section (is_uuid : string -> bool) (cb : builder)
  (memories : list memory) (token_budget : Z)
  : option (list SemanticMemory) :=
  pack_from (token_counter cb) (to_semantic is_uuid) memories token_budget 0.

Definition _build_episodic_section (is_uuid : string -> bool) (cb : builder)
  (memories : list memory) (token_budget : Z)
  : option (list EpisodicMemory) :=
  pack_from (token_counter cb) (to_episodic is_uuid) memories token_budget 0.

Definition _build_procedural_section (is_uuid : string -> bool)
  (cb : builder) (memories : list memory) (token_budget : Z)
  : option (list ProceduralMemory) :=
  pack_from (token_counter cb) (to_procedural is_uuid) memories
    token_budget 0.

(** The binary search of [_truncate_to_tokens] over the number of words
    kept; the loop runs while [low < high]. *)
Equations? truncation_point (enc : encoder) (words : list string)
  (max_tokens : Z) (low high : nat) : nat by wf (high - low)%nat lt :=
  truncation_point enc words max_tokens low high with decide (low < high)%nat => {
    | left _ =>
        if count enc (String.concat " " (take ((low + high + 1) / 2)%nat words))
           <=? max_tokens
        then truncation_point enc words max_tokens ((low + high + 1) / 2)%nat high
        else truncation_point enc words max_tokens low
               ((low + high + 1) / 2 - 1)%nat;
    | right _ => low }.
Proof.
  all: change (Nat.divmod (low + high + 1) 1 0 1).1
         with ((low + high + 1) / 2)%nat;
       pose proof (Nat.div_mod_eq (low + high + 1) 2);
       pose proof (Nat.mod_upper_bound (low + high + 1) 2);
       lia.
Qed.

Definition _truncate_to_tokens (cb : builder) (text : string)
  (max_tokens : Z) : string :=
  if String.eqb text "" then ""
  else if count (token_counter cb) text <=? max_tokens then text
  else
    let words := split text in
    let low := truncation_point (token_counter cb) words max_tokens
                 0 (length words) in
    String.concat " " (take low words) ++ "...".

Definition sum_tokens {A : Type} (enc : encoder) (content_of : A -> string)
  (l : list A) : Z :=
  foldl (fun total mem => total + count enc (content_of mem)) 0 l.

Definition _calculate_total_tokens (cb : builder)
  (profile_memories : list ProfileMemory)
  (semantic_memories : list SemanticMemory)
  (episodic_memories : list EpisodicMemory)
  (procedural_memories : list ProceduralMemory)
  (entity_context : option string) : Z :=
  let enc := token_counter cb in
  let total := sum_tokens enc pm_content profile_memories in
  let total := total + sum_tokens enc sm_content semantic_memories in
  let total := total + sum_tokens enc em_content episodic_memories in
  let total := total + sum_tokens enc prm_content procedural_memories in
  match entity_context with
  | Some text =>
      if String.eqb text "" then total else total + count enc text
  | None => total
  end.

(** [if entity_context: entity_context = self._truncate_to_tokens(...)] *)
Definition truncate_entity (cb : builder) (entity_context : option string)
  (budget : Z) : option string :=
  if truthy_str entity_context
  then (fun text => _truncate_to_tokens cb text budget) <$> entity_context
  else entity_context.

(** [ContextBuilder.build]; [None] when a section raises. *)
Definition build (is_uuid : string -> bool) (cb : builder)
  (memories : list memory) (max_tokens_arg : option Z)
  (entity_context : option string) : option MemoryContext :=
  let max_tokens := or_int max_tokens_arg (max_tokens cb) in
  let categorized := _categorize_memories memories in
  profile_memories ←
    _build_profile_section is_uuid cb (bucket categorized "profile")
      (profile_tokens cb);
  semantic_memories ←
    _build_semantic_section is_uuid cb (bucket categorized "semantic")
      (semantic_tokens cb);
  episodic_memories ←
    _build_episodic_section is_uuid cb (bucket categorized "episodic")
      (episodic_tokens cb);
  procedural_memories ←
    _build_procedural_section is_uuid cb (bucket categorized "procedural")
      (procedural_tokens cb);
  let entity_context := truncate_entity cb entity_context (entity_tokens cb) in
  let total_tokens :=
    _calculate_total_tokens cb profile_memories semantic_memories
      episodic_memories procedural_memories entity_context in
  let truncated := total_tokens >? max_tokens in
  Some {| profile_memories := profile_memories;
          semantic_memories := semantic_memories;
          episodic_memories := episodic_memories;
          procedural_memories := procedural_memories;
          entity_context := entity_context;
          total_tokens := Z.min total_tokens max_tokens;
          truncated := truncated |}.

End ContextBuilder.

Module AdaptiveContextBuilder.
Import TokenCounter ContextBuilder.

(** The dictionary literal [base_budgets] of [_reallocate_budgets], in
    the order in which [items()] visits it. *)
Definition budget_items (cb : builder) : list (string * Z) :=
  [ ("profile", profile_tokens cb);
    ("semantic", semantic_tokens cb);
    ("episodic", episodic_tokens cb);
    ("procedural", procedural_tokens cb);
    ("entity", entity_tokens cb) ].

(** The first loop: [unused] and [need_more] after one more category. *)
Definition scan_step (category_sizes : gmap string Z)
  (acc : Z * list string) (item : string * Z) : Z * list string :=
  let '(unused, need_more) := acc in
  let '(cat, base) := item in
  match category_sizes !! cat with
  | Some size =>
      if size <? base then (unused + (base - size), need_more)
      else if size >? base then (unused, (need_more ++ [cat])%list)
      else acc
  | None => acc
  end.

(** [base_budgets[cat] += extra_each] *)
Definition raise_budget (extra_each : Z) (budgets : gmap string Z)
  (cat : string) : gmap string Z :=
  alter (fun base => base + extra_each) cat budgets.

Definition _reallocate_budgets (cb : builder)
  (category_sizes : gmap string Z) (max_tokens : Z) : gmap string Z :=
  let base_budgets : gmap string Z := list_to_map (budget_items cb) in
  let '(unused, need_more) :=
    foldl (scan_step category_sizes) (0, []) (budget_items cb) in
  if (unused >? 0) && negb (Nat.eqb (length need_more) 0)
  then
    let extra_each := unused / Z.of_nat (length need_more) in
    foldl (raise_budget extra_each) base_budgets need_more
  else base_budgets.

(** [sum(self.token_counter.count(m.get("content", "")) for m in mems)] *)
Definition category_size (cb : builder) (mems : list memory) : Z :=
  foldl (fun total m =>
           total + count (token_counter cb) (default "" (content m))) 0 mems.

(** [AdaptiveContextBuilder.build].  [budgets[k]] is a total lookup:
    [_reallocate_budgets] returns a dictionary that binds the five kinds.
    [category_sizes] has the four kinds of [categorized] as its keys. *)
Definition build (is_uuid : string -> bool) (cb : builder)
  (memories : list memory) (max_tokens_arg : option Z)
  (entity_context : option string) : option MemoryContext :=
  let max_tokens := or_int max_tokens_arg (max_tokens cb) in
  let categorized := _categorize_memories memories in
  let category_sizes : gmap string Z := category_size cb <$> categorized in
  let budgets := _reallocate_budgets cb category_sizes max_tokens in
  profile_memories ←
    _build_profile_section is_uuid cb (bucket categorized "profile")
      (budgets !!! "profile");
  semantic_memories ←
    _build_semantic_section is_uuid cb (bucket categorized "semantic")
      (budgets !!! "semantic");
  episodic_memories ←
    _build_episodic_section is_uuid cb (bucket categorized "episodic")
      (budgets !!! "episodic");
  procedural_memories ←
    _build_procedural_section is_uuid cb (bucket categorized "procedural")
      (budgets !!! "procedural");
  let entity_context :=
    truncate_entity cb entity_context
      (default (entity_tokens cb) (budgets !! "entity")) in
  let total_tokens :=
    _calculate_total_tokens cb profile_memories semantic_memories
      episodic_memories procedural_memories entity_context in
  Some {| profile_memories := profile_memories;
          semantic_memories := semantic_memories;
          episodic_memories := episodic_memories;
          procedural_memories := procedural_memories;
          entity_context := entity_context;
          total_tokens := total_tokens;
          truncated := total_tokens >? max_tokens |}.

(** *** The reallocation rule in the words of the specification

    A category whose demand is below its base budget contributes its
    surplus to a pool; the pool is split evenly among the categories
    whose demand exceeds their base budget.  A category without a demand
    (no key in [category_sizes]) neither gives nor takes. *)
Definition surplus (base : Z) (demand : option Z) : Z :=
  match demand with
  | Some size => if size <? base then base - size else 0
  | None => 0
  end.

Definition exceeds (base : Z) (demand : option Z) : bool :=
  match demand with
  | Some size => base <? size
  | None => false
  end.

Definition surplus_pool (cb : builder) (demands : gmap string Z) : Z :=
  foldr (fun item pool => surplus item.2 (demands !! item.1) + pool) 0
    (budget_items cb).

Definition over_budget (cb : builder) (demands : gmap string Z)
  : list string :=
  (filter (fun item => exceeds item.2 (demands !! item.1)) (budget_items cb)).*1.

Definition even_share (cb : builder) (demands : gmap string Z) : Z :=
  surplus_pool cb demands / Z.of_nat (length (over_budget cb demands)).

Definition reallocated (cb : builder) (demands : gmap string Z)
  (cat : string) : option Z :=
  (fun base =>
     if bool_decide (cat ∈ over_budget cb demands)
     then base + even_share cb demands
     else base)
  <$> (list_to_map (budget_items cb) : gmap string Z) !! cat.

End AdaptiveContextBuilder.

(** ** core/hybrid_ranker.py *)

Module HybridRanker.
Local Open Scope R_scope.

(** config.py, the ranking weights of [settings]. *)
Definition settings_keyword_match_weight : R := 35 / 100.
Definition settings_vector_similarity_weight : R := 25 / 100.
Definition settings_reliability_weight : R := 20 / 100.
Definition settings_recency_weight : R := 15 / 100.
Definition settings_frequency_weight : R := 5 / 100.

(** What [_calculate_recency_score] can learn from [created_at]: nothing
    (the key is missing, [None] or an empty string), an exception (a string
    that [fromisoformat] rejects), or the whole number of days
    [(now - created_at).days], negative for a timestamp in the future. *)
Inductive timestamp : Type :=
| Missing
| Unparseable
| Age (days : Z).

(** A search result as the ranker reads and writes it.  [content] stands
    for the keys the ranker carries along untouched. *)
Record result : Type := {
  memory_id : option string;
  content : option string;
  score : option R;
  keyword_score : option R;
  vector_score : option R;
  reliability_score : option R;
  recency_score : option R;
  frequency_score : option R;
  match_type : option string;
  reliability : option R;
  created_at : timestamp;
  access_count : option Z;
}.

(** The attributes set by [HybridRanker.__init__]. *)
Record ranker : Type := {
  keyword_weight : R;
  vector_weight : R;
  reliability_weight : R;
  recency_weight : R;
  frequency_weight : R;
}.

(** [w or default] on an optional float: [None] and [0.0] are falsy. *)
Definition or_float (w : option R) (d : R) : R :=
  match w with
  | Some x => if Req_dec_T x 0 then d else x
  | None => d
  end.

Definition init (keyword_weight vector_weight reliability_weight
                 recency_weight frequency_weight : option R) : ranker :=
  {| keyword_weight := or_float keyword_weight settings_keyword_match_weight;
     vector_weight := or_float vector_weight settings_vector_similarity_weight;
     reliability_weight :=
       or_float reliability_weight settings_reliability_weight;
     recency_weight := or_float recency_weight settings_recency_weight;
     frequency_weight := or_float frequency_weight settings_frequency_weight |}.

(** [total] of [__init__]; the constructor only logs a warning when
    [abs(total - 1.0) > 0.01]. *)
Definition weight_total (rk : ranker) : R :=
  keyword_weight rk + vector_weight rk + reliability_weight rk
  + recency_weight rk + frequency_weight rk.

(** [result.get(key, 0)] on a score. *)
Definition get0 (x : option R) : R := default 0 x.

(** The builtin [max(val1, val2)]: the first argument unless the second
    is greater. *)
Definition py_max (val1 val2 : R) : R :=
  if Rgt_dec val2 val1 then val2 else val1.

(** [types.add(...)] on the set [types], kept as a duplicate-free list. *)
Definition add_type (t : option string) (types : list string) : list string :=
  match t with
  | Some s =>
      if String.eqb s "" then types
      else if existsb (String.eqb s) types then types
      else (types ++ [s])%list
  | None => types
  end.

(** [sorted(types)]: strings compare by code point. *)
Fixpoint insert_sorted (s : string) (l : list string) : list string :=
  match l with
  | [] => [s]
  | t :: l' => if String.leb s t then s :: l else t :: insert_sorted s l'
  end.

Definition sorted (l : list string) : list string :=
  foldr insert_sorted [] l.

(** [",".join(sorted(types)) if len(types) > 1
     else (types.pop() if types else "hybrid")] *)
Definition join_types (types : list string) : string :=
  match types with
  | [] => "hybrid"
  | [t] => t
  | _ => String.concat "," (sorted types)
  end.

Definition _merge_results (result1 result2 : result) : result :=
  let top (key : result -> option R) :=
    Some (py_max (get0 (key result1)) (get0 (key result2))) in
  let types := add_type (match_type result2) (add_type (match_type result1) []) in
  {| memory_id := memory_id result1;
     content := content result1;
     score := top score;
     keyword_score := top keyword_score;
     vector_score := top vector_score;
     reliability_score := top reliability_score;
     recency_score := top recency_score;
     frequency_score := top frequency_score;
     match_type := Some (join_types types);
     reliability := reliability result1;
     created_at := created_at result1;
     access_count := access_count result1 |}.

(** The dictionary [seen] of [_deduplicate], in insertion order. *)
Definition seen_get (seen : list (string * result)) (id : string)
  : option result :=
  snd <$> find (fun entry => String.eqb entry.1 id) seen.

(** [seen[id] = r] for a key already bound: the entry keeps its place. *)
Definition seen_replace (seen : list (string * result)) (id : string)
  (r : result) : list (string * result) :=
  (fun entry => if String.eqb entry.1 id then (id, r) else entry) <$> seen.

Definition dedup_step (seen : list (string * result)) (r : result)
  : list (string * result) :=
  match memory_id r with
  | Some id =>
      if String.eqb id "" then seen
      else match seen_get seen id with
           | None => (seen ++ [(id, r)])%list
           | Some existing =>
               let existing_score := get0 (score existing) in
               let new_score := get0 (score r) in
               if Rgt_dec new_score existing_score
               then seen_replace seen id (_merge_results existing r)
               else seen
           end
  | None => seen
  end.

Definition _deduplicate (results : list result) : list result :=
  (foldl dedup_step [] results).*2.

Definition clamp01 (x : R) : R := Rmin 1 (Rmax 0 x).

Definition _normalize_keyword_score (score : R) : R :=
  if Rle_dec score 0 then 0
  else clamp01 (tanh (score * (2 / 10))).

Definition _normalize_vector_score (score : R) : R :=
  clamp01 ((score + 1) / 2).

(** [math.exp] raises [OverflowError] when its result is beyond the
    floats, that is above [2 ^ 1024].  For [exp(-decay_rate * age_days)]
    on a whole number of days this is when [age_days < -30720]: a
    [created_at] more than 30720 days (84 years) after now. *)
Definition exp_overflows (age_days : Z) : bool := (age_days <? -30720)%Z.

(** The [except Exception] of the function catches the [OverflowError]
    as it catches a parsing error, and returns 0.5. *)
Definition _calculate_recency_score (created_at : timestamp) : R :=
  match created_at with
  | Missing => 5 / 10
  | Unparseable => 5 / 10
  | Age age_days =>
      let decay_rate := ln 2 / 30 in
      if exp_overflows age_days then 5 / 10
      else clamp01 (exp (- decay_rate * IZR age_days))
  end.

Definition _calculate_frequency_score (access_count : Z) : R :=
  if (access_count <=? 0)%Z then 0
  else
    let max_expected := 1000%Z in
    clamp01 (ln (IZR (1 + access_count)) / ln (IZR (1 + max_expected))).

(** The dictionary returned by [_calculate_scores]. *)
Record scores : Type := {
  s_keyword : R;
  s_vector : R;
  s_reliability : R;
  s_recency : R;
  s_frequency : R;
  s_combined : R;
}.

Definition _calculate_scores (rk : ranker) (r : result) : scores :=
  let keyword_score := _normalize_keyword_score (get0 (keyword_score r)) in
  let vector_score := _normalize_vector_score (get0 (vector_score r)) in
  let reliability_score := default (5 / 10) (reliability r) in
  let recency_score := _calculate_recency_score (created_at r) in
  let frequency_score :=
    _calculate_frequency_score (default 0%Z (access_count r)) in
  let combined_score :=
    keyword_weight rk * keyword_score
    + vector_weight rk * vector_score
    + reliability_weight rk * reliability_score
    + recency_weight rk * recency_score
    + frequency_weight rk * frequency_score in
  {| s_keyword := keyword_score;
     s_vector := vector_score;
     s_reliability := reliability_score;
     s_recency := recency_score;
     s_frequency := frequency_score;
     s_combined := combined_score |}.

(** [result.update(scores)] *)
Definition update (r : result) (s : scores) : result :=
  {| memory_id := memory_id r;
     content := content r;
     score := Some (s_combined s);
     keyword_score := Some (s_keyword s);
     vector_score := Some (s_vector s);
     reliability_score := Some (s_reliability s);
     recency_score := Some (s_recency s);
     frequency_score := Some (s_frequency s);
     match_type := match_type r;
     reliability := reliability r;
     created_at := created_at r;
     access_count := access_count r |}.

Definition scored (rk : ranker) (r : result) : result :=
  update r (_calculate_scores rk r).

(** [scored_results.sort(key=lambda x: x["score"], reverse=True)]: the
    sort is stable, and with [reverse=True] results of equal score keep
    their order.  Every scored result binds ["score"]. *)
Definition sort_key (r : result) : R := get0 (score r).

Fixpoint insert_by_score (x : result) (l : list result) : list result :=
  match l with
  | [] => [x]
  | y :: l' =>
      if Rlt_dec (sort_key x) (sort_key y) then y :: insert_by_score x l'
      else x :: l
  end.

Definition sort_by_score (l : list result) : list result :=
  foldr insert_by_score [] l.

Definition rank (rk : ranker) (results : list result) (deduplicate : bool)
  : list result :=
  match results with
  | [] => []
  | _ =>
      let results := if deduplicate then _deduplicate results else results in
      sort_by_score (scored rk <$> results)
  end.

End HybridRanker.

(** ** Strings and regular expressions, as core/query_analyzer.py uses them *)

Module Text.

Definition in_range (lo hi : N) (c : ascii) : bool :=
  let n := N_of_ascii c in ((lo <=? n) && (n <=? hi))%N.

(** [str.lower] on one code point below 256: the ASCII capitals and the
    Latin-1 capitals (192-222 but the multiplication sign 215). *)
Definition lower_char (c : ascii) : ascii :=
  let n := N_of_ascii c in
  if (in_range 65 90 c || in_range 192 222 c && negb (n =? 215)%N)
  then ascii_of_N (n + 32)
  else c.

Fixpoint lower (s : string) : string :=
  match s with
  | EmptyString => EmptyString
  | String c s' => String (lower_char c) (lower s')
  end.

Fixpoint lstrip (s : string) : string :=
  match s with
  | EmptyString => EmptyString
  | String c s' => if isspace c then lstrip s' else s
  end.

Fixpoint rstrip (s : string) : string :=
  match s with
  | EmptyString => EmptyString
  | String c s' =>
      let t := rstrip s' in
      if String.eqb t "" && isspace c then EmptyString else String c t
  end.

(** [str.strip()] *)
Definition strip (s : string) : string := rstrip (lstrip s).

(** [needle in text] on strings. *)
Fixpoint contains (needle text : string) : bool :=
  String.prefix needle text
  || match text with
     | EmptyString => false
     | String _ text' => contains needle text'
     end.

(** The class [\d] of [re] on code points below 256. *)
Definition is_digit (c : ascii) : bool := in_range 48 57 c.

(** The class [\w] of [re] on code points below 256: the ASCII letters,
    digits and underscore, and the Latin-1 code points that
    [str.isalnum] accepts. *)
Definition is_word (c : ascii) : bool :=
  let n := N_of_ascii c in
  in_range 48 57 c || in_range 65 90 c || in_range 97 122 c || (n =? 95)%N
  || (n =? 170)%N || (n =? 178)%N || (n =? 179)%N || (n =? 181)%N
  || (n =? 185)%N || (n =? 186)%N || in_range 188 190 c
  || in_range 192 214 c || in_range 216 246 c || in_range 248 255 c.

(** [re.findall(r'\b\w+\b', text)]: a match starts where a run of word
    characters starts and, [\w+] being greedy and [\b] failing inside a
    run, takes the whole run.  [cur] is the run being read. *)
Fixpoint word_runs_from (s cur : string) : list string :=
  match s with
  | EmptyString => if String.eqb cur "" then [] else [cur]
  | String c s' =>
      if is_word c then word_runs_from s' (cur ++ String c "")
      else if String.eqb cur "" then word_runs_from s' ""
           else cur :: word_runs_from s' ""
  end.

Definition word_runs (s : string) : list string := word_runs_from s "".

(** The fragment of [re] syntax that the intent and time patterns use. *)
Inductive regex : Type :=
| Eps
| Chr (c : ascii)
| Class (p : ascii -> bool)
| Plus (p : ascii -> bool)
| Seq (r1 r2 : regex)
| Alt (r1 r2 : regex)
| Bol
| Eol
| WordBoundary.

Definition is_word_opt (c : option ascii) : bool :=
  match c with
  | Some x => is_word x
  | None => false
  end.

Definition next_char (s : string) : option ascii :=
  match s with
  | EmptyString => None
  | String c _ => Some c
  end.

(** Whether [r] matches at the position between [prev] (the character
    before, if any) and [s] (the rest of the text), the remainder being
    accepted by [k].  Every pattern is compiled with [re.IGNORECASE]: a
    literal matches a character with the same lower case.
    - [Plus p] is [p+] for a character class [p];
    - [Bol] is [^] (no [re.MULTILINE]): the start of the text;
    - [Eol] is [$]: the end of the text, or before a final newline;
    - [WordBoundary] is [\b]. *)
Fixpoint matches (r : regex) (prev : option ascii) (s : string)
  (k : option ascii -> string -> bool) : bool :=
  match r with
  | Eps => k prev s
  | Chr c =>
      match s with
      | String d s' => Ascii.eqb (lower_char d) (lower_char c) && k (Some d) s'
      | EmptyString => false
      end
  | Class p =>
      match s with
      | String d s' => p d && k (Some d) s'
      | EmptyString => false
      end
  | Plus p =>
      (fix more (s : string) : bool :=
         match s with
         | String d s' => p d && (k (Some d) s' || more s')
         | EmptyString => false
         end) s
  | Seq r1 r2 => matches r1 prev s (fun prev' s' => matches r2 prev' s' k)
  | Alt r1 r2 => matches r1 prev s k || matches r2 prev s k
  | Bol => match prev with None => k prev s | Some _ => false end
  | Eol =>
      (String.eqb s "" || String.eqb s (String "010"%char "")) && k prev s
  | WordBoundary =>
      xorb (is_word_opt prev) (is_word_opt (next_char s)) && k prev s
  end.

Fixpoint search_from (r : regex) (prev : option ascii) (s : string) : bool :=
  matches r prev s (fun _ _ => true)
  || match s with
     | String c s' => search_from r (Some c) s'
     | EmptyString => false
     end.

(** [re.search(pattern, text, re.IGNORECASE)] as a truth value. *)
Definition re_search (r : regex) (text : string) : bool :=
  search_from r None text.

(** A literal string, and an alternation [(w1|w2|...)] of literal strings. *)
Fixpoint lit (w : string) : regex :=
  match w with
  | EmptyString => Eps
  | String c w' => Seq (Chr c) (lit w')
  end.

Fixpoint any_of (ws : list string) : regex :=
  match ws with
  | [] => Class (fun _ => false)
  | [w] => lit w
  | w :: ws' => Alt (lit w) (any_of ws')
  end.

Fixpoint seq (rs : list regex) : regex :=
  match rs with
  | [] => Eps
  | [r] => r
  | r :: rs' => Seq r (seq rs')
  end.

(** [r?] *)
Definition opt (r : regex) : regex := Alt r Eps.

End Text.

(** ** core/query_analyzer.py *)

Module QueryAnalyzer.
Import Text.

Definition word_bounded (ws : list string) : regex :=
  seq [WordBoundary; any_of ws; WordBoundary].

(** [self.recall_patterns]:
    [\b(remember|recall|told|said|mentioned|discussed|talked about)\b],
    [\b(last time|before|previously|earlier|when did)\b],
    [\b(what was|what were|what did)\b],
    [\b(my|our) (favorite|preference|choice)\b]. *)
Definition recall_patterns : list regex :=
  [ word_bounded ["remember"; "recall"; "told"; "said"; "mentioned";
                  "discussed"; "talked about"];
    word_bounded ["last time"; "before"; "previously"; "earlier"; "when did"];
    word_bounded ["what was"; "what were"; "what did"];
    seq [WordBoundary; any_of ["my"; "our"]; Chr " ";
         any_of ["favorite"; "preference"; "choice"]; WordBoundary] ].

(** [self.question_patterns]:
    [^(what|who|where|when|why|how|which|can|could|would|should|is|are|do|does)\b],
    [\?$], [\b(explain|describe|tell me about|define)\b]. *)
Definition question_patterns : list regex :=
  [ seq [Bol;
         any_of ["what"; "who"; "where"; "when"; "why"; "how"; "which"; "can";
                 "could"; "would"; "should"; "is"; "are"; "do"; "does"];
         WordBoundary];
    seq [Chr "?"; Eol];
    word_bounded ["explain"; "describe"; "tell me about"; "define"] ].

(** [self.command_patterns]:
    [^(create|make|build|write|generate|add|update|delete|remove)\b],
    [^(set|configure|change|modify|fix|solve|help)\b],
    [^(please|can you|could you|would you)\s+(create|make|write|help)\b]. *)
Definition command_patterns : list regex :=
  [ seq [Bol;
         any_of ["create"; "make"; "build"; "write"; "generate"; "add";
                 "update"; "delete"; "remove"];
         WordBoundary];
    seq [Bol;
         any_of ["set"; "configure"; "change"; "modify"; "fix"; "solve"; "help"];
         WordBoundary];
    seq [Bol; any_of ["please"; "can you"; "could you"; "would you"];
         Plus isspace; any_of ["create"; "make"; "write"; "help"];
         WordBoundary] ].

Definition date_separator (c : ascii) : bool :=
  Ascii.eqb c "/" || Ascii.eqb c "-".

(** [self.time_patterns]; the sixth pattern is
    [\b(\d{1,2}[/-]\d{1,2}[/-]\d{2,4})\b]. *)
Definition time_patterns : list (regex * string) :=
  [ (word_bounded ["today"; "now"; "currently"], "present");
    (word_bounded ["yesterday"; "last night"], "recent");
    (word_bounded ["last week"; "past week"], "week");
    (word_bounded ["last month"; "past month"], "month");
    (word_bounded ["last year"; "past year"], "year");
    (seq [WordBoundary;
          Class is_digit; opt (Class is_digit); Class date_separator;
          Class is_digit; opt (Class is_digit); Class date_separator;
          Class is_digit; Class is_digit;
          opt (Seq (Class is_digit) (opt (Class is_digit)));
          WordBoundary], "specific_date");
    (word_bounded ["january"; "february"; "march"; "april"; "may"; "june";
                   "july"; "august"; "september"; "october"; "november";
                   "december"], "month_name") ].

(** [self.stopwords] *)
Definition stopwords : gset string :=
  list_to_set
    [ "a"; "an"; "and"; "are"; "as"; "at"; "be"; "by"; "for"; "from";
      "has"; "he"; "in"; "is"; "it"; "its"; "of"; "on"; "that"; "the";
      "to"; "was"; "were"; "will"; "with"; "this"; "they"; "their";
      "what"; "when"; "where"; "which"; "while"; "who"; "whom"; "why";
      "would"; "could"; "should"; "have"; "has"; "had"; "been"; "being";
      "can"; "do"; "does"; "did"; "done"; "i"; "me"; "my"; "myself";
      "we"; "our"; "ours"; "you"; "your"; "yours"; "he"; "him"; "his";
      "she"; "her"; "hers"; "it"; "its"; "them"; "theirs"; "please";
      "thanks"; "thank"; "hello"; "hi"; "hey" ].

(** models/chat.py *)
Record QueryAnalysis : Type := {
  original_query : string;
  intent : string;
  topics : list string;
  keywords : list string;
  entities_mentioned : list string;
  time_reference : option string;
  requires_memory : bool;
  memory_types_needed : list string;
  confidence : Q;
}.

(** The validation that the constructor of [QueryAnalysis] runs:
    [confidence: float = Field(default=0.5, ge=0.0, le=1.0)].  [None] is
    the [ValidationError]. *)
Definition validated (a : QueryAnalysis) : option QueryAnalysis :=
  if Qle_bool 0 (confidence a) && Qle_bool (confidence a) 1
  then Some a else None.

(** [any(re.search(pattern, query, re.IGNORECASE) for pattern in group)]:
    the [for] loop of [_detect_intent] returns at the first match. *)
Definition any_match (patterns : list regex) (query : string) : bool :=
  existsb (fun pattern => re_search pattern query) patterns.

Definition _detect_intent (query : string) : string :=
  if any_match recall_patterns query then "recall"
  else if any_match command_patterns query then "command"
  else if any_match question_patterns query then "question"
  else "conversation".

(** The loop that removes duplicates while preserving order. *)
Definition unique_step (acc : gset string * list string) (k : string)
  : gset string * list string :=
  let '(seen, unique_keywords) := acc in
  if bool_decide (k ∈ seen) then acc
  else ({[k]} ∪ seen, (unique_keywords ++ [k])%list).

Definition _extract_keywords (query : string) : list string :=
  let words := word_runs (lower query) in
  let keywords :=
    List.filter
      (fun w => bool_decide (w ∉ stopwords) && (2 <? String.length w)%nat)
      words in
  let unique_keywords := (foldl unique_step (∅, []) keywords).2 in
  take 15 unique_keywords.

Fixpoint first_label (patterns : list (regex * string)) (query : string)
  : option string :=
  match patterns with
  | [] => None
  | (pattern, time_type) :: rest =>
      if re_search pattern query then Some time_type
      else first_label rest query
  end.

Definition _detect_time_reference (query : string) : option string :=
  first_label time_patterns query.

Definition _requires_memory (intent query : string) : bool :=
  if String.eqb intent "recall" then true
  else if String.eqb intent "command" then
    let personal_hints := ["my"; "prefer"; "usual"; "always"; "like"] in
    existsb (fun h => contains h query) personal_hints
  else if String.eqb intent "question" then
    let personal_hints := ["my"; "i"; "me"; "we"; "our"] in
    existsb (fun h => existsb (String.eqb h) (split query)) personal_hints
  else true.

Definition _determine_memory_types (intent query : string) : list string :=
  if String.eqb intent "recall"
  then ["profile"; "semantic"; "episodic"; "procedural"]
  else if String.eqb intent "question" then
    let memory_types := ["semantic"; "profile"] in
    if contains "how" query || contains "process" query || contains "step" query
    then (memory_types ++ ["procedural"])%list
    else memory_types
  else if String.eqb intent "command" then ["procedural"; "profile"]
  else ["episodic"; "semantic"; "profile"].

Definition _calculate_confidence (intent : string) (keywords : list string)
  (query : string) : Q :=
  let confidence := (5 # 10)%Q in
  let confidence :=
    if (3 <=? length keywords)%nat then (confidence + (1 # 10))%Q
    else confidence in
  let confidence :=
    if (5 <=? length keywords)%nat then (confidence + (1 # 10))%Q
    else confidence in
  let confidence :=
    if String.eqb intent "recall" then (confidence + (2 # 10))%Q
    else if String.eqb intent "question" then (confidence + (15 # 100))%Q
    else if String.eqb intent "command" then (confidence + (15 # 100))%Q
    else confidence in
  let words := length (split query) in
  let confidence :=
    if ((5 <=? words) && (words <=? 30))%nat then (confidence + (1 # 10))%Q
    else if (30 <? words)%nat then (confidence - (1 # 10))%Q
    else confidence in
  (* min(1.0, max(0.0, confidence)) *)
  let lower_clamped := if Qle_bool confidence 0 then 0%Q else confidence in
  if Qle_bool 1 lower_clamped then 1%Q else lower_clamped.

Section Analyze.

(** [_extract_topics] and [_detect_entities] end in [list(set(...))]: the
    order of their results depends on the hashing of strings.  Both are
    total on strings; [analyze] stores their results as they come. *)
Variable _extract_topics : string -> list string.
Variable _detect_entities : string -> list string.

Definition analyze (query : string) : option QueryAnalysis :=
  let query_lower := strip (lower query) in
  let intent := _detect_intent query_lower in
  let keywords := _extract_keywords query in
  let topics := _extract_topics query in
  let entities := _detect_entities query in
  let time_reference := _detect_time_reference query_lower in
  let requires_memory := _requires_memory intent query_lower in
  let memory_types := _determine_memory_types intent query_lower in
  let confidence := _calculate_confidence intent keywords query_lower in
  validated
    {| original_query := query;
       intent := intent;
       topics := topics;
       keywords := keywords;
       entities_mentioned := entities;
       time_reference := time_reference;
       requires_memory := requires_memory;
       memory_types_needed := memory_types;
       confidence := confidence |}.

End Analyze.

(** [LLMQueryAnalyzer.analyze_with_llm] asks for the enhancement when
    [base_analysis.confidence < 0.6]. *)
Definition low_confidence (a : QueryAnalysis) : bool :=
  negb (Qle_bool (6 # 10) (confidence a)).

End QueryAnalyzer.

(** ** utils/token_counter.py, continued *)

Module TokenCounterMore.
Import TokenCounter.

(** An element of the list given to [count_messages]: a dictionary (its
    [content] and [role], when bound), a string, or anything else. *)
Inductive message : Type :=
| DictMessage (content role : option string)
| TextMessage (text : string)
| OtherMessage.

Definition count_message (enc : encoder) (total : Z) (m : message) : Z :=
  let total := total + 4 in
  match m with
  | DictMessage content role =>
      total + count enc (default "" content) + count enc (default "" role)
  | TextMessage text => total + count enc text
  | OtherMessage => total
  end.

Definition count_messages (enc : encoder) (messages : list message) : Z :=
  foldl (count_message enc) 0 messages + 2.

(** The slice [text[:stop]]: a negative [stop] counts from the end. *)
Definition slice_to (text : string) (stop : Z) : string :=
  let len := Z.of_nat (String.length text) in
  let stop := if stop <? 0 then Z.max 0 (len + stop) else Z.min stop len in
  String.substring 0 (Z.to_nat stop) text.

(** [text.rsplit(" ", 1)[0]] when [" " in text]: what comes before the
    last space; [None] when [text] has no space. *)
Fixpoint before_last_space (text : string) : option string :=
  match text with
  | EmptyString => None
  | String c rest =>
      match before_last_space rest with
      | Some kept => Some (String c kept)
      | None => if Ascii.eqb c " " then Some EmptyString else None
      end
  end.

(** [truncate_to_tokens] when no encoder is installed ([self._encoder] is
    [None]): the character-based path. *)
Definition truncate_to_tokens_estimate (text : string) (max_tokens : Z)
  (add_ellipsis : bool) : string :=
  if String.eqb text "" then ""
  else
    let current_tokens := count None text in
    if current_tokens <=? max_tokens then text
    else
      let max_chars := max_tokens * 4 in
      let max_chars := if add_ellipsis then max_chars - 3 else max_chars in
      let truncated := slice_to text max_chars in
      let truncated := default truncated (before_last_space truncated) in
      if add_ellipsis then truncated ++ "..." else truncated.

(** A tiktoken encoding, as [split_by_tokens] uses it. *)
Record encoding : Type := {
  encode : string -> list nat;
  decode : list nat -> string;
}.

(** The encoder of [count] for an encoding whose [encode] does not raise:
    [len(self._encoder.encode(text))]. *)
Definition counting (e : encoding) : encoder :=
  Some (fun text => Some (length (encode e text))).

(** The slice [l[start:stop]] of a list: a negative index counts from the
    end, and both are clamped to the list. *)
Definition slice_index (len i : Z) : Z :=
  if i <? 0 then Z.max (len + i) 0 else Z.min i len.

Definition list_slice {A : Type} (l : list A) (start stop : Z) : list A :=
  let len := Z.of_nat (length l) in
  let a := slice_index len start in
  let b := slice_index len stop in
  take (Z.to_nat (b - a)) (drop (Z.to_nat a) l).

(** One iteration of [while start < len(tokens)]; the state is [start]
    and [chunks]. *)
Definition chunk_step (e : encoding) (tokens : list nat)
  (chunk_size overlap : Z) (state : Z * list string) : Z * list string :=
  let '(start, chunks) := state in
  let end_ := Z.min (start + chunk_size) (Z.of_nat (length tokens)) in
  let chunk_tokens := list_slice tokens start end_ in
  let chunk_text := decode e chunk_tokens in
  (end_ - overlap, (chunks ++ [chunk_text])%list).

(** The loop, run for at most [fuel] iterations: [None] when the loop is
    still running after them. *)
Fixpoint chunk_loop (fuel : nat) (e : encoding) (tokens : list nat)
  (chunk_size overlap : Z) (state : Z * list string)
  : option (list string) :=
  if state.1 <? Z.of_nat (length tokens) then
    match fuel with
    | O => None
    | S fuel' =>
        chunk_loop fuel' e tokens chunk_size overlap
          (chunk_step e tokens chunk_size overlap state)
    end
  else Some state.2.

(** [split_by_tokens] when an encoder is installed. *)
Definition split_by_tokens_encoded (fuel : nat) (e : encoding)
  (text : string) (chunk_size overlap : Z) : option (list string) :=
  if String.eqb text "" then Some []
  else if count (counting e) text <=? chunk_size then Some [text]
  else
    let tokens := encode e text in
    chunk_loop fuel e tokens chunk_size overlap (0, []).

End TokenCounterMore.

(** ** core/hybrid_ranker.py, continued *)

Module HybridRankerMore.
Import HybridRanker.
Local Open Scope R_scope.

(** [l.sort(key=..., reverse=True)] for any element type: the stable
    sort that [rank] and [rerank_with_context] both call. *)
Fixpoint insert_desc {A : Type} (key : A -> R) (x : A) (l : list A) : list A :=
  match l with
  | [] => [x]
  | y :: l' =>
      if Rlt_dec (key x) (key y) then y :: insert_desc key x l'
      else x :: l
  end.

Definition sort_desc {A : Type} (key : A -> R) (l : list A) : list A :=
  foldr (insert_desc key) [] l.

(** A result dictionary together with its [keywords] key, which only
    [rerank_with_context] reads. *)
Record keyed_result : Type := {
  fields : result;
  keywords : option (list string);
}.

(** [result["score"] = s] *)
Definition set_score (r : result) (s : R) : result :=
  {| memory_id := memory_id r;
     content := content r;
     score := Some s;
     keyword_score := keyword_score r;
     vector_score := vector_score r;
     reliability_score := reliability_score r;
     recency_score := recency_score r;
     frequency_score := frequency_score r;
     match_type := match_type r;
     reliability := reliability r;
     created_at := created_at r;
     access_count := access_count r |}.

(** The boost of one result: [0.1] per topic shared with its keywords,
    [0.05] per context entity whose lower case occurs in its lower-cased
    content. *)
Definition context_boost (context_topics context_entities : gset string)
  (r : keyed_result) : R :=
  let boost := 0 in
  let result_keywords : gset string := list_to_set (default [] (keywords r)) in
  let topic_overlap := size (context_topics ∩ result_keywords) in
  let boost :=
    if Nat.eqb topic_overlap 0 then boost
    else boost + 1 / 10 * INR topic_overlap in
  let result_content := Text.lower (default "" (content (fields r))) in
  foldl (fun boost entity =>
           if Text.contains (Text.lower entity) result_content
           then boost + 5 / 100 else boost)
    boost (elements context_entities).

Definition boosted (context_topics context_entities : gset string)
  (r : keyed_result) : keyed_result :=
  let boost := context_boost context_topics context_entities r in
  {| fields :=
       set_score (fields r)
         (Rmin 1 (get0 (score (fields r)) + Rmin (3 / 10) boost));
     keywords := keywords r |}.

(** [rerank_with_context]: an empty (or missing) context returns the
    results as they are. *)
Definition rerank_with_context (results : list keyed_result)
  (context : gmap string (list string)) : list keyed_result :=
  if decide (context = ∅) then results
  else
    let context_topics : gset string :=
      list_to_set (default [] (context !! "topics")) in
    let context_entities : gset string :=
      list_to_set (default [] (context !! "entities")) in
    sort_desc (fun r => sort_key (fields r))
      (boosted context_topics context_entities <$> results).

(** [AdaptiveHybridRanker.rank_for_query_type]: the weights are assigned
    to [self], so the ranker after the call is returned with the ranking. *)
Definition weights_for (query_type : string) : ranker :=
  if String.eqb query_type "recall" then
    {| keyword_weight := 40 / 100; vector_weight := 15 / 100;
       reliability_weight := 15 / 100; recency_weight := 25 / 100;
       frequency_weight := 5 / 100 |}
  else if String.eqb query_type "question" then
    {| keyword_weight := 20 / 100; vector_weight := 35 / 100;
       reliability_weight := 30 / 100; recency_weight := 10 / 100;
       frequency_weight := 5 / 100 |}
  else if String.eqb query_type "conversation" then
    {| keyword_weight := 30 / 100; vector_weight := 25 / 100;
       reliability_weight := 20 / 100; recency_weight := 20 / 100;
       frequency_weight := 5 / 100 |}
  else
    {| keyword_weight := settings_keyword_match_weight;
       vector_weight := settings_vector_similarity_weight;
       reliability_weight := settings_reliability_weight;
       recency_weight := settings_recency_weight;
       frequency_weight := settings_frequency_weight |}.

Definition rank_for_query_type (self : ranker) (results : list result)
  (query_type : string) : ranker * list result :=
  let self := weights_for query_type in
  (self, rank self results true).

End HybridRankerMore.

(** ** core/keyword_search.py *)

Module KeywordSearch.
Import Text.

(** [self.stopwords] *)
Definition stopwords : gset string :=
  list_to_set
    [ "a"; "an"; "and"; "are"; "as"; "at"; "be"; "by"; "for"; "from";
      "has"; "he"; "in"; "is"; "it"; "its"; "of"; "on"; "that"; "the";
      "to"; "was"; "were"; "will"; "with"; "this"; "they"; "their";
      "what"; "when"; "where"; "which"; "while"; "who"; "whom"; "why";
      "would"; "could"; "should"; "have"; "has"; "had"; "been"; "being";
      "can"; "do"; "does"; "did"; "done"; "i"; "me"; "my"; "myself";
      "we"; "our"; "ours"; "you"; "your"; "yours"; "he"; "him"; "his";
      "she"; "her"; "hers"; "it"; "its"; "them"; "theirs" ].

Definition tokenize (text : string) : list string :=
  if String.eqb text "" then []
  else
    let text := lower text in
    let words := word_runs text in
    List.filter
      (fun w => bool_decide (w ∉ stopwords) && (2 <? String.length w)%nat)
      words.

(** [freq[token] = freq.get(token, 0) + 1]: the dictionary [freq] is an
    association list in insertion order. *)
Fixpoint bump (freq : list (string * nat)) (token : string)
  : list (string * nat) :=
  match freq with
  | [] => [(token, 1%nat)]
  | (k, n) :: rest =>
      if String.eqb k token then (k, S n) :: rest
      else (k, n) :: bump rest token
  end.

(** [sorted(freq.items(), key=lambda x: x[1], reverse=True)]: stable, and
    with [reverse=True] items of equal count keep their order. *)
Fixpoint insert_by_count (x : string * nat) (l : list (string * nat))
  : list (string * nat) :=
  match l with
  | [] => [x]
  | y :: l' =>
      if (x.2 <? y.2)%nat then y :: insert_by_count x l' else x :: l
  end.

Definition sort_by_count (l : list (string * nat)) : list (string * nat) :=
  foldr insert_by_count [] l.

(** The slice [l[:stop]] of a list: a negative [stop] counts from the
    end. *)
Definition list_slice_to {A : Type} (l : list A) (stop : Z) : list A :=
  if stop <? 0 then take (length l - Z.to_nat (- stop)) l
  else take (Z.to_nat stop) l.

Definition extract_keywords (text : string) (max_keywords : Z)
  : list string :=
  let tokens := tokenize text in
  match tokens with
  | [] => []
  | _ :: _ =>
      let freq := foldl bump [] tokens in
      let sorted_keywords := sort_by_count freq in
      (list_slice_to sorted_keywords max_keywords).*1
  end.

(** [find_matching_keywords]: the matches are returned as [list(matches)],
    in the iteration order of a set; they are kept as the set.  The ratio
    of two lengths is a rational. *)
Definition find_matching_keywords (query : string)
  (document_keywords : list string) : gset string * Q :=
  let query_tokens : gset string := list_to_set (tokenize query) in
  let doc_tokens : gset string := list_to_set (lower <$> document_keywords) in
  let matches := query_tokens ∩ doc_tokens in
  if bool_decide (query_tokens = ∅) then (∅, 0%Q)
  else
    let match_ratio :=
      Qdiv (inject_Z (Z.of_nat (size matches)))
        (inject_Z (Z.of_nat (size query_tokens))) in
    (matches, match_ratio).

End KeywordSearch.

(** ** services/retrieval_service.py *)

Module RetrievalService.
Import Text QueryAnalyzer.

(** [_determine_memory_types(analysis)]; [[t.value for t in MemoryType]]
    lists the kinds in the order of the enumeration. *)
Definition _determine_memory_types (analysis : QueryAnalysis) : list string :=
  match memory_types_needed analysis with
  | _ :: _ => memory_types_needed analysis
  | [] =>
      let intent := lower (intent analysis) in
      if String.eqb intent "recall"
      then ["profile"; "semantic"; "episodic"; "procedural"]
      else if String.eqb intent "question" then ["semantic"; "profile"]
      else if String.eqb intent "command" then ["procedural"; "profile"]
      else ["episodic"; "semantic"]
  end.

Definition simple_stopwords : gset string :=
  list_to_set
    [ "this"; "that"; "with"; "from"; "have"; "been"; "were"; "they";
      "their"; "what"; "when"; "where"; "which"; "while"; "about";
      "would"; "could"; "should"; "please"; "thank"; "thanks" ].

(** [re.findall(r'\b\w{4,}\b', text.lower())] finds the runs of word
    characters that have at least four of them: [\w{4,}] is greedy and
    [\b] fails inside a run, so a match is a whole run. *)
Definition _extract_simple_keywords (text : string) : list string :=
  let words :=
    List.filter (fun w => (4 <=? String.length w)%nat)
      (word_runs (lower text)) in
  take 10 (List.filter (fun w => bool_decide (w ∉ simple_stopwords)) words).

(** The [QueryAnalysis(...)] that [retrieve_for_context] constructs; the
    fields it leaves out take the defaults of the model. *)
Definition context_analysis (query : string) : option QueryAnalysis :=
  validated
    {| original_query := query;
       intent := "conversation";
       topics := [];
       keywords := _extract_simple_keywords query;
       entities_mentioned := [];
       time_reference := None;
       requires_memory := true;
       memory_types_needed := [];
       confidence := 5 # 10 |}.

(** The query tokens of the BM25 search that [_keyword_retrieval] runs:
    [query_string = " ".join(keywords)], which [KeywordSearch.search]
    passes to [tokenize]. *)
Definition keyword_query_tokens (keywords : list string) : list string :=
  let query_string := String.concat " " keywords in
  KeywordSearch.tokenize query_string.

End RetrievalService.

(** * Vocabulary of the statements *)

Module ContextBuilderSpec.
Import TokenCounter ContextBuilder AdaptiveContextBuilder.

(** The summed token count of the contents of a list of results. *)
Definition bucket_tokens (enc : encoder) (l : list memory) : Z :=
  foldr (fun m acc => count enc (default "" (content m)) + acc) 0 l.

(** [packed], the outcome of a section builder, is that of the maximal
    prefix of [memories] within [token_budget].  There is a number [n] of
    results such that every non-empty prefix up to [n] stays within the
    budget and every longer prefix exceeds it; [packed] is the list of the
    typed memories of the first [n] results, in their order, or the
    [ValidationError] when one of these [n] does not validate.  The
    results after the [n]-th are not looked at. *)
Definition packs_maximal_prefix {A : Type} (enc : encoder)
  (convert : memory -> string -> option A) (memories : list memory)
  (token_budget : Z) (packed : option (list A)) : Prop :=
  exists n,
    (n <= length memories)%nat
    /\ packed
       = mapM (fun m => convert m (default "" (content m))) (take n memories)
    /\ (forall k, (0 < k <= n)%nat ->
          bucket_tokens enc (take k memories) <= token_budget)
    /\ (forall k, (n < k <= length memories)%nat ->
          token_budget < bucket_tokens enc (take k memories)).

(** A stand-in for the check of pydantic on the [id] of a model: the
    canonical text of a UUID, hexadecimal digits in groups of 8, 4, 4, 4
    and 12 separated by hyphens. *)
Definition is_hex (c : ascii) : bool :=
  Text.in_range 48 57 c || Text.in_range 65 70 c || Text.in_range 97 102 c.

Fixpoint has_shape (shape : list bool) (text : string) : bool :=
  match shape, text with
  | [], EmptyString => true
  | digit :: shape', String c text' =>
      (if digit then is_hex c else Ascii.eqb c "-") && has_shape shape' text'
  | _, _ => false
  end.

Definition canonical_uuid (text : string) : bool :=
  has_shape
    (replicate 8 true ++ false :: replicate 4 true ++ false
     :: replicate 4 true ++ false :: replicate 4 true ++ false
     :: replicate 12 true)%list
    text.

(** The raw sum of a context: what [_calculate_total_tokens] counts over
    its packed sections. *)
Definition raw_sum (cb : builder) (ctx : MemoryContext) : Z :=
  _calculate_total_tokens cb (profile_memories ctx) (semantic_memories ctx)
    (episodic_memories ctx) (procedural_memories ctx) (entity_context ctx).

(** [surplus_pool] and [over_budget] over any list of budget items. *)
Definition pool_of (demands : gmap string Z) (items : list (string * Z)) : Z :=
  foldr (fun item pool => surplus item.2 (demands !! item.1) + pool) 0 items.

Definition over_of (demands : gmap string Z) (items : list (string * Z))
  : list string :=
  (filter (fun item => exceeds item.2 (demands !! item.1)) items).*1.

(** [ContextBuilder()] with the budgets of [settings] and no tokenizer
    installed. *)
Definition default_builder : builder :=
  init None None None None None None None None.

(** A builder whose profile budget is 6 tokens, and three profile results
    of 3, 4 and 1 tokens. *)
Definition small_profile_builder : builder :=
  init None None (Some 6) None None None None None.

Definition profile_fact (text : string) : memory :=
  {| memory_id := Some "0b3e7c1a-5d2f-4c8e-9a61-7f4d2e9b1c05";
     memory_type := Some "profile";
     content := Some text; attribute := None; value := None;
     reliability := Some (8 # 10); conversation_id := None |}.

Definition profile_bucket : list memory :=
  [ profile_fact "lives in Oslo";
    profile_fact "works as a nurse";
    profile_fact "vegan" ].

Definition semantic_fact (id text : string) : memory :=
  {| memory_id := Some id; memory_type := Some "semantic";
     content := Some text; attribute := None; value := None;
     reliability := None; conversation_id := None |}.

Definition long_fact : memory :=
  semantic_fact "123e4567-e89b-12d3-a456-426614174000"
    ("The user moved to Lisbon in 2021 and works remotely "
     ++ "as a data engineer there.").

(** The same fact under an id that is not a UUID. *)
Definition unsaved_fact : memory :=
  semantic_fact "m1"
    ("The user moved to Lisbon in 2021 and works remotely "
     ++ "as a data engineer there.").

(** Profile and semantic demands at their base budgets, an overflowing
    episodic bucket, an empty procedural bucket. *)
Definition scenario_D_demands : gmap string Z :=
  {[ "profile" := 600; "semantic" := 1500; "episodic" := 2000;
     "procedural" := 0 ]}.

End ContextBuilderSpec.

Module HybridRankerSpec.
Import HybridRanker.
Local Open Scope R_scope.

(** The entries of [seen] are filed under their own, non-empty
    [memory_id], one entry per key. *)
Definition seen_wf (seen : list (string * result)) : Prop :=
  NoDup seen.*1
  /\ Forall (fun entry => memory_id entry.2 = Some entry.1 /\ entry.1 <> "")
       seen.

Definition has_id (id : string) (r : result) : Prop := memory_id r = Some id.

#[global] Instance has_id_dec id r : Decision (has_id id r).
Proof. unfold has_id. apply _. Defined.

Definition weights_nonneg (rk : ranker) : Prop :=
  0 <= keyword_weight rk /\ 0 <= vector_weight rk
  /\ 0 <= reliability_weight rk /\ 0 <= recency_weight rk
  /\ 0 <= frequency_weight rk.

(** The stored reliability, when there is one, lies in [0,1]. *)
Definition reliability_in_unit (r : result) : Prop :=
  match reliability r with
  | Some x => 0 <= x <= 1
  | None => True
  end.

(** [HybridRanker()] *)
Definition default_ranker : ranker := init None None None None None.

(** [HybridRanker(keyword_weight=0.001, vector_weight=0.554,
    reliability_weight=0.25)]: the weights sum to 1.005. *)
Definition drifted_ranker : ranker :=
  init (Some (1 / 1000)) (Some (554 / 1000)) (Some (25 / 100)) None None.

Definition hit (id : option string) (total keyword vector : option R)
  (strategy : string) : result :=
  {| memory_id := id; content := Some "has a dog called Rex";
     score := total; keyword_score := keyword; vector_score := vector;
     reliability_score := None; recency_score := None;
     frequency_score := None;
     match_type := Some strategy; reliability := Some (8 / 10);
     created_at := Age 3; access_count := Some 4%Z |}.

(** The two results of scenario B, with the [score] that the keyword and
    the vector strategies attach (their own raw score). *)
Definition keyword_hit : result :=
  hit (Some "m1") (Some (2 / 10)) (Some (2 / 10)) (Some 0) "keyword".
Definition vector_hit : result :=
  hit (Some "m1") (Some (8 / 10)) (Some 0) (Some (8 / 10)) "vector".

(** Results whose [memory_id] is missing, and empty. *)
Definition anonymous_hit : result :=
  hit None (Some (9 / 10)) (Some 0) (Some (9 / 10)) "vector".
Definition blank_id_hit : result :=
  hit (Some "") (Some 1) (Some 5) (Some 0) "keyword".

(** A fresh, reliable, often read memory found by the vector strategy. *)
Definition fresh_popular_hit : result :=
  {| memory_id := Some "m1"; content := Some "likes hiking";
     score := Some 1; keyword_score := None; vector_score := Some 1;
     reliability_score := None; recency_score := None;
     frequency_score := None;
     match_type := Some "vector"; reliability := Some 1;
     created_at := Age 0; access_count := Some 1000%Z |}.

Definition week_old_hit : result :=
  {| memory_id := Some "m2"; content := Some "prefers tea";
     score := Some (8 / 10); keyword_score := Some 3;
     vector_score := Some (8 / 10);
     reliability_score := None; recency_score := None;
     frequency_score := None;
     match_type := Some "vector"; reliability := Some (9 / 10);
     created_at := Age 7; access_count := Some 12%Z |}.

End HybridRankerSpec.

Module QueryAnalyzerSpec.
Import Text QueryAnalyzer.

(** A query made of whitespace only, possibly empty. *)
Fixpoint whitespace_only (s : string) : bool :=
  match s with
  | EmptyString => true
  | String c s' => isspace c && whitespace_only s'
  end.

Definition scenario_A : string :=
  "What did I tell you about my dog last week?".

(** Stand-ins for the topic and entity extractors. *)
Definition no_topics (query : string) : list string := [].
Definition no_entities (query : string) : list string := [].

End QueryAnalyzerSpec.

Module TokenCounterMoreSpec.
Import TokenCounter TokenCounterMore.

(** One token per character: an encoding to run the loop on. *)
Definition char_encoding : encoding :=
  {| encode := fun text => nat_of_ascii <$> list_ascii_of_string text;
     decode := fun tokens => string_of_list_ascii (ascii_of_nat <$> tokens) |}.

Fixpoint has_space (text : string) : bool :=
  match text with
  | EmptyString => false
  | String c text' => Ascii.eqb c " " || has_space text'
  end.

(** [kept] is [text] up to its last space, or the whole of [text] when it
    has no space. *)
Definition cut_at_last_space (text kept : string) : Prop :=
  (has_space text = false /\ kept = text)
  \/ (exists tail, text = kept ++ String " " tail /\ has_space tail = false).

(** The number of characters of [text[:stop]]. *)
Definition slice_length (text : string) (stop : Z) : Z :=
  let len := Z.of_nat (String.length text) in
  if stop <? 0 then Z.max 0 (len + stop) else Z.min stop len.

(** A chunk of tokens: not empty, at most [chunk_size] tokens. *)
Definition piece_ok (chunk_size : Z) (piece : list nat) : Prop :=
  0 < Z.of_nat (length piece) <= chunk_size.

End TokenCounterMoreSpec.

Module ContextBuilderMoreSpec.
Import TokenCounter ContextBuilder AdaptiveContextBuilder ContextBuilderSpec.

(** The four kinds of memory, in the order of [MemoryType]. *)
Definition memory_kinds : list string :=
  ["profile"; "semantic"; "episodic"; "procedural"].

(** The kind under which [_categorize_memories] files a memory. *)
Definition kind_of (m : memory) : string := default "semantic" (memory_type m).

(** What the reallocation adds to the budget of a category. *)
Definition raise_of (cb : builder) (demands : gmap string Z) (cat : string) : Z :=
  if bool_decide (cat ∈ over_budget cb demands) then even_share cb demands else 0.

Definition total_budget (budgets : gmap string Z) (items : list (string * Z)) : Z :=
  foldr (fun item total => budgets !!! item.1 + total) 0 items.

Definition total_base (items : list (string * Z)) : Z :=
  foldr (fun item total => item.2 + total) 0 items.

(** A builder with a semantic budget of 20 tokens, and two semantic
    results of 19 and 5 tokens. *)
Definition tight_semantic_builder : builder :=
  init None None None (Some 20) None None None None.

Definition two_facts : list memory :=
  [ long_fact;
    semantic_fact "9f1c2d3e-4b5a-4978-8a6b-0c1d2e3f4a5b"
      "The user has two cats." ].

(** The first [k] words, joined by spaces, are within [limit] tokens. *)
Definition fits (enc : encoder) (words : list string) (limit : Z) (k : nat) : Prop :=
  count enc (String.concat " " (take k words)) <= limit.

End ContextBuilderMoreSpec.

Module HybridRankerMoreSpec.
Import HybridRanker HybridRankerSpec.
Local Open Scope R_scope.

#[export] Instance R_eq_dec : EqDecision R := Req_dec_T.

(** Every element has a key at least that of every later element. *)
Definition descending {A : Type} (key : A -> R) (l : list A) : Prop :=
  StronglySorted (fun a b => key b <= key a) l.

(** The first result of [l] whose memory_id is [id]. *)
Definition first_with_id (id : string) (l : list result) : option result :=
  List.find (fun r => bool_decide (memory_id r = Some id)) l.

(** [a] describes the same stored memory as [b]. *)
Definition same_memory (a b : result) : Prop :=
  content a = content b /\ reliability a = reliability b
  /\ created_at a = created_at b /\ access_count a = access_count b.

(** What [seen[id]] is once the loop of [_deduplicate] has read the
    results [done]: the identity of the first of them with that id, the
    greatest of their scores. *)
Definition kept_for (id : string) (done : list result) (e : result) : Prop :=
  memory_id e = Some id /\ id <> ""
  /\ (exists first, first_with_id id done = Some first /\ same_memory e first)
  /\ (forall r, r ∈ done -> memory_id r = Some id ->
        get0 (score r) <= get0 (score e))
  /\ (exists r, r ∈ done /\ memory_id r = Some id
                /\ get0 (score r) = get0 (score e)).

Definition dedup_inv (seen : list (string * result)) (done : list result)
  : Prop :=
  seen_wf seen
  /\ Forall (fun entry => kept_for entry.1 done entry.2) seen
  /\ (forall r id, r ∈ done -> memory_id r = Some id -> id <> "" ->
        id ∈ seen.*1).

End HybridRankerMoreSpec.

Module QueryAnalyzerMoreSpec.
Import Text QueryAnalyzer.

(** A keyword-worthy word: not a stopword, more than two characters. *)
Definition content_word (w : string) : Prop :=
  (w ∉ stopwords) /\ (2 < String.length w)%nat.

Fixpoint string_forall (P : ascii -> bool) (s : string) : bool :=
  match s with
  | EmptyString => true
  | String c s' => P c && string_forall P s'
  end.

(** A character that [str.lower] leaves as it is. *)
Definition is_lower (c : ascii) : bool := Ascii.eqb (lower_char c) c.

(** A word as [\b\w+\b] finds it: not empty, of word characters; its
    characters satisfy [P]. *)
Definition word (P : ascii -> bool) (w : string) : Prop :=
  w <> "" /\ string_forall is_word w = true /\ string_forall P w = true.

End QueryAnalyzerMoreSpec.

Module KeywordSearchSpec.
Import Text KeywordSearch.

(** The number of times [w] occurs in [l]. *)
Definition occurrences (w : string) (l : list string) : nat :=
  length (filter (fun x => x = w) l).

Definition by_count (a b : string * nat) : Prop := (b.2 <= a.2)%nat.

(** Every entry of [freq] counts the occurrences of its key in [done],
    and every element of [done] has an entry. *)
Definition counted (done : list string) (e : string * nat) : Prop :=
  e.2 = occurrences e.1 done /\ e.1 ∈ done.

Definition freq_inv (freq : list (string * nat)) (done : list string) : Prop :=
  NoDup freq.*1
  /\ Forall (counted done) freq
  /\ (forall w, w ∈ done -> w ∈ freq.*1).

End KeywordSearchSpec.

(** * The context builder: packing, totals, reallocation *)

Module ContextBuilderProofs.
Import TokenCounter ContextBuilder AdaptiveContextBuilder ContextBuilderSpec.

Lemma count_nonneg enc text : 0 <= count enc text.
Proof.
  unfold count. destruct (String.eqb text ""); [lia|].
  assert (0 <= estimate text) by (apply Z.div_pos; lia).
  destruct enc as [encode|]; [destruct (encode text)|]; lia.
Qed.

Lemma bucket_tokens_nonneg enc l : 0 <= bucket_tokens enc l.
Proof.
  induction l as [|m l IH]; simpl; [lia|].
  pose proof (count_nonneg enc (default "" (content m))). lia.
Qed.

(** The loop invariant of the packers, for any running count. *)
Lemma pack_from_prefix {A : Type} enc (convert : memory -> string -> option A)
  memories token_budget current :
  exists n,
    (n <= length memories)%nat
    /\ pack_from enc convert memories token_budget current
       = mapM (fun m => convert m (default "" (content m))) (take n memories)
    /\ (forall k, (0 < k <= n)%nat ->
          current + bucket_tokens enc (take k memories) <= token_budget)
    /\ (forall k, (n < k <= length memories)%nat ->
          token_budget < current + bucket_tokens enc (take k memories)).
Proof.
  revert current. induction memories as [|m rest IH]; intros current.
  - exists 0%nat. simpl. repeat split; intros; lia.
  - cbn [pack_from].
    destruct (Z.gtb_spec (current + count enc (default "" (content m)))
                token_budget) as [Hgt|Hle].
    + exists 0%nat. repeat split; try (simpl; lia).
      intros k Hk. destruct k as [|k]; [lia|]. simpl.
      pose proof (bucket_tokens_nonneg enc (take k rest)). lia.
    + destruct (IH (current + count enc (default "" (content m))))
        as (n & Hn & Heq & Hin & Hout).
      exists (S n). repeat split.
      * simpl. lia.
      * rewrite Heq. reflexivity.
      * intros k Hk. destruct k as [|k]; [lia|]. simpl.
        destruct k as [|k].
        -- rewrite take_0. simpl. lia.
        -- specialize (Hin (S k) ltac:(lia)). lia.
      * intros k Hk. destruct k as [|k]; [lia|]. simpl.
        simpl in Hk. specialize (Hout k ltac:(lia)). lia.
Qed.

Lemma pack_from_maximal {A : Type} enc
  (convert : memory -> string -> option A) memories token_budget :
  packs_maximal_prefix enc convert memories token_budget
    (pack_from enc convert memories token_budget 0).
Proof.
  destruct (pack_from_prefix enc convert memories token_budget 0)
    as (n & Hn & Heq & Hin & Hout).
  exists n. repeat split.
  - exact Hn.
  - exact Heq.
  - intros k Hk. specialize (Hin k Hk). lia.
  - intros k Hk. specialize (Hout k Hk). lia.
Qed.

(** C4.  Each of the four section packers packs the maximal prefix of
    its bucket within the token budget, in rank order: every non-empty
    prefix it includes stays within the budget and every longer prefix of
    the bucket exceeds it, so packing stops at the first result that would
    overflow and nothing after it is included.  What is returned is the
    typed memories of that prefix, whatever check pydantic runs on an id;
    when one of the results of the prefix does not validate the builder
    raises instead. *)
Theorem section_packers_pack_maximal_prefix (is_uuid : string -> bool)
  (cb : builder) (memories : list memory) (token_budget : Z) :
  packs_maximal_prefix (token_counter cb) (to_profile is_uuid) memories
    token_budget (_build_profile_section is_uuid cb memories token_budget)
  /\ packs_maximal_prefix (token_counter cb) (to_semantic is_uuid) memories
       token_budget (_build_semantic_section is_uuid cb memories token_budget)
  /\ packs_maximal_prefix (token_counter cb) (to_episodic is_uuid) memories
       token_budget (_build_episodic_section is_uuid cb memories token_budget)
  /\ packs_maximal_prefix (token_counter cb) (to_procedural is_uuid) memories
       token_budget
       (_build_procedural_section is_uuid cb memories token_budget).
Proof. repeat split; apply pack_from_maximal. Qed.

(** Scenario C in small: against a budget of 6 tokens, results of 3, 4
    and 1 tokens pack as the first result alone; the third would fit and
    is not considered. *)
Lemma profile_packing_stops_at_overflow :
  packs_maximal_prefix None (to_profile canonical_uuid) profile_bucket 6
    (_build_profile_section canonical_uuid small_profile_builder
       profile_bucket 6).
Proof.
  exact (proj1 (section_packers_pack_maximal_prefix canonical_uuid
                  small_profile_builder profile_bucket 6)).
Defined.

Example profile_packing_keeps_one_result :
  (exists first,
     _build_profile_section canonical_uuid small_profile_builder
       profile_bucket (profile_tokens small_profile_builder)
     = Some [first]
     /\ pm_content first = "lives in Oslo")
  /\ bucket_tokens None (take 1 profile_bucket) = 3
  /\ bucket_tokens None (take 2 profile_bucket) = 7
  /\ count None "vegan" = 1.
Proof. split; [eexists; split; reflexivity | vm_compute; repeat split]. Qed.

(** A result within the budget whose id is not a UUID makes the builder
    raise; past the budget it is not looked at. *)
Example semantic_packing_validates_what_it_packs :
  _build_semantic_section canonical_uuid default_builder
    [long_fact; unsaved_fact] 40 = None
  /\ (exists first,
        _build_semantic_section canonical_uuid default_builder
          [long_fact; unsaved_fact] 20 = Some [first]
        /\ sm_content first = default "" (content long_fact)).
Proof. split; [reflexivity | eexists; split; reflexivity]. Qed.

(** [ContextBuilder.build] caps the reported total. *)
Lemma build_total_tokens_capped is_uuid cb memories max_tokens_arg entity ctx :
  ContextBuilder.build is_uuid cb memories max_tokens_arg entity = Some ctx ->
  let limit := or_int max_tokens_arg (max_tokens cb) in
  total_tokens ctx = Z.min (raw_sum cb ctx) limit
  /\ total_tokens ctx <= limit
  /\ truncated ctx = bool_decide (limit < raw_sum cb ctx).
Proof.
  unfold ContextBuilder.build. intros Hbuild.
  destruct (_build_profile_section _ _ _ _) as [p|]; [|done].
  destruct (_build_semantic_section _ _ _ _) as [sm|]; [|done].
  destruct (_build_episodic_section _ _ _ _) as [e|]; [|done].
  destruct (_build_procedural_section _ _ _ _) as [pr|]; [|done].
  cbn in Hbuild. injection Hbuild as <-.
  cbv zeta. unfold raw_sum;
    cbn [profile_memories semantic_memories episodic_memories
         procedural_memories entity_context total_tokens truncated].
  set (raw := _calculate_total_tokens _ _ _ _ _ _).
  repeat split; [lia|].
  rewrite Z.gtb_ltb.
  destruct (Z.ltb_spec (or_int max_tokens_arg (max_tokens cb)) raw).
  - rewrite bool_decide_eq_true_2; auto.
  - rewrite bool_decide_eq_false_2; auto. lia.
Qed.

(** [AdaptiveContextBuilder.build] reports the raw sum as it is. *)
Lemma adaptive_build_total_tokens_raw is_uuid cb memories max_tokens_arg
  entity ctx :
  AdaptiveContextBuilder.build is_uuid cb memories max_tokens_arg entity
  = Some ctx ->
  let limit := or_int max_tokens_arg (max_tokens cb) in
  total_tokens ctx = raw_sum cb ctx
  /\ truncated ctx = bool_decide (limit < raw_sum cb ctx).
Proof.
  unfold AdaptiveContextBuilder.build. intros Hbuild.
  destruct (_build_profile_section _ _ _ _) as [p|]; [|done].
  destruct (_build_semantic_section _ _ _ _) as [sm|]; [|done].
  destruct (_build_episodic_section _ _ _ _) as [e|]; [|done].
  destruct (_build_procedural_section _ _ _ _) as [pr|]; [|done].
  cbn in Hbuild. injection Hbuild as <-.
  cbv zeta. unfold raw_sum;
    cbn [profile_memories semantic_memories episodic_memories
         procedural_memories entity_context total_tokens truncated].
  set (raw := _calculate_total_tokens _ _ _ _ _ _).
  split; [reflexivity|].
  rewrite Z.gtb_ltb.
  destruct (Z.ltb_spec (or_int max_tokens_arg (max_tokens cb)) raw).
  - rewrite bool_decide_eq_true_2; auto.
  - rewrite bool_decide_eq_false_2; auto. lia.
Qed.

(** C2.  Whenever [AdaptiveContextBuilder.build] returns, its
    [total_tokens] is the raw sum, uncapped.  On one semantic result of
    19 tokens (its id a UUID) with [max_tokens=10] it returns
    [total_tokens = 19] and [truncated = True], where the minimum of the
    raw sum and [max_tokens] is 10; [ContextBuilder.build] on the same
    input returns that 10. *)
Theorem adaptive_build_exceeds_max_tokens :
  (forall is_uuid cb memories max_tokens_arg entity ctx,
     AdaptiveContextBuilder.build is_uuid cb memories max_tokens_arg entity
     = Some ctx ->
     total_tokens ctx = raw_sum cb ctx
     /\ truncated ctx
        = bool_decide (or_int max_tokens_arg (max_tokens cb) < raw_sum cb ctx))
  /\ (exists ctx,
        AdaptiveContextBuilder.build canonical_uuid default_builder
          [long_fact] (Some 10) None = Some ctx
        /\ raw_sum default_builder ctx = 19
        /\ total_tokens ctx = 19
        /\ truncated ctx = true
        /\ Z.min (raw_sum default_builder ctx) 10 = 10)
  /\ (exists ctx,
        ContextBuilder.build canonical_uuid default_builder
          [long_fact] (Some 10) None = Some ctx
        /\ raw_sum default_builder ctx = 19
        /\ total_tokens ctx = 10
        /\ truncated ctx = true).
Proof.
  split; [exact adaptive_build_total_tokens_raw|].
  split; eexists; (split; [vm_compute; reflexivity|]);
    vm_compute; repeat split.
Qed.

(** With an id that is not a UUID both builders raise. *)
Example build_raises_on_invalid_id :
  AdaptiveContextBuilder.build canonical_uuid default_builder
    [unsaved_fact] (Some 10) None = None
  /\ ContextBuilder.build canonical_uuid default_builder
       [unsaved_fact] (Some 10) None = None.
Proof. vm_compute. split; reflexivity. Qed.

Lemma surplus_nonneg base demand : 0 <= surplus base demand.
Proof.
  destruct demand as [size|]; simpl; [|lia].
  destruct (Z.ltb_spec size base); lia.
Qed.

Lemma pool_of_nonneg demands items : 0 <= pool_of demands items.
Proof.
  induction items as [|item items IH]; simpl; [lia|].
  pose proof (surplus_nonneg item.2 (demands !! item.1)). lia.
Qed.

(** The first loop of [_reallocate_budgets] computes the pool and the
    over-budget categories. *)
Lemma scan_fold demands items unused need_more :
  foldl (scan_step demands) (unused, need_more) items
  = (unused + pool_of demands items,
     (need_more ++ over_of demands items)%list).
Proof.
  revert unused need_more.
  induction items as [|[cat base] items IH]; intros unused need_more.
  - simpl. f_equal; [lia|]. unfold over_of. simpl. by rewrite app_nil_r.
  - cbn [foldl]. unfold over_of. rewrite filter_cons.
    cbn [pool_of foldr fst snd].
    unfold scan_step at 2.
    destruct (demands !! cat) as [size|] eqn:Hsize; cbn [surplus exceeds].
    + destruct (Z.ltb_spec size base) as [Hlt|Hge].
      * rewrite IH. destruct (Z.ltb_spec base size); [lia|].
        rewrite decide_False by (simpl; tauto).
        f_equal; fold (pool_of demands items); lia.
      * destruct (Z.gtb_spec size base) as [Hgt|Hle].
        -- rewrite IH. destruct (Z.ltb_spec base size); [|lia].
           rewrite decide_True by (simpl; tauto).
           f_equal; first [ fold (pool_of demands items); lia
                          | by rewrite <- app_assoc ].
        -- rewrite IH. destruct (Z.ltb_spec base size); [lia|].
           rewrite decide_False by (simpl; tauto).
           f_equal; fold (pool_of demands items); lia.
    + rewrite IH. rewrite decide_False by (simpl; tauto).
      f_equal; fold (pool_of demands items); lia.
Qed.

(** The second loop raises exactly the categories it visits. *)
Lemma raise_fold extra (budgets : gmap string Z) cats cat :
  NoDup cats ->
  foldl (raise_budget extra) budgets cats !! cat
  = (fun base => if bool_decide (cat ∈ cats) then base + extra else base)
    <$> budgets !! cat.
Proof.
  intros Hnd. revert budgets.
  induction Hnd as [|c cats Hc Hnd IH]; intros budgets.
  - simpl. destruct (budgets !! cat); reflexivity.
  - cbn [foldl]. rewrite IH. unfold raise_budget.
    destruct (decide (c = cat)) as [->|Hne].
    + rewrite lookup_alter_eq.
      rewrite (bool_decide_eq_false_2 (cat ∈ cats)) by done.
      rewrite bool_decide_eq_true_2 by (apply elem_of_cons; by left).
      destruct (budgets !! cat); reflexivity.
    + rewrite lookup_alter_ne by done.
      destruct (budgets !! cat); simpl; [|done].
      f_equal.
      rewrite (bool_decide_ext (cat ∈ c :: cats) (cat ∈ cats)); [done|].
      rewrite elem_of_cons. intuition congruence.
Qed.

Lemma over_of_NoDup demands items :
  NoDup items.*1 -> NoDup (over_of demands items).
Proof.
  unfold over_of. induction items as [|item items IH]; intros Hnd.
  - constructor.
  - rewrite fmap_cons in Hnd. apply NoDup_cons in Hnd as [Hnot Hnd].
    rewrite filter_cons. destruct (decide _); [|auto].
    rewrite fmap_cons. apply NoDup_cons. split; [|auto].
    intros Hin. apply Hnot.
    apply list_elem_of_fmap in Hin as (y & -> & Hy).
    apply list_elem_of_fmap. exists y. split; [done|].
    by apply list_elem_of_filter in Hy as [_ ?].
Qed.

Lemma budget_items_NoDup cb : NoDup (budget_items cb).*1.
Proof.
  simpl.
  repeat (apply NoDup_cons; split;
          [rewrite ?elem_of_cons, elem_of_nil; intuition congruence|]).
  constructor.
Qed.

(** The code agrees with the rule in the words of the specification. *)
Lemma reallocate_budgets_lookup cb demands max_tokens cat :
  _reallocate_budgets cb demands max_tokens !! cat = reallocated cb demands cat.
Proof.
  unfold _reallocate_budgets, reallocated, even_share.
  rewrite scan_fold. rewrite Z.add_0_l, app_nil_l.
  change (pool_of demands (budget_items cb)) with (surplus_pool cb demands).
  change (over_of demands (budget_items cb)) with (over_budget cb demands).
  pose proof (pool_of_nonneg demands (budget_items cb)) as Hpool.
  change (pool_of demands (budget_items cb))
    with (surplus_pool cb demands) in Hpool.
  destruct (Z.gtb_spec (surplus_pool cb demands) 0) as [Hpos|Hzero];
    cbn [andb].
  - destruct (over_budget cb demands) as [|c cats] eqn:Hover;
      cbn [length Nat.eqb negb].
    + destruct (_ !! cat); reflexivity.
    + rewrite raise_fold; [reflexivity|].
      rewrite <- Hover. apply over_of_NoDup, budget_items_NoDup.
  - assert (surplus_pool cb demands = 0) as -> by lia.
    rewrite Zdiv_0_l. destruct (_ !! cat); simpl; [|done].
    f_equal. destruct (bool_decide _); lia.
Qed.

Lemma base_budget_lookup cb cat base :
  (cat, base) ∈ budget_items cb ->
  (list_to_map (budget_items cb) : gmap string Z) !! cat = Some base.
Proof.
  intros Hin. apply elem_of_list_to_map; [apply budget_items_NoDup|done].
Qed.

Lemma over_budget_exceeds cb demands cat base :
  cat ∈ over_budget cb demands -> (cat, base) ∈ budget_items cb ->
  exceeds base (demands !! cat) = true.
Proof.
  unfold over_budget. intros Hover Hitem.
  apply list_elem_of_fmap in Hover as ([cat' base'] & Hcat & Hin).
  simpl in Hcat. subst cat'.
  apply list_elem_of_filter in Hin as [Hex Hin]. simpl in Hex.
  assert (base' = base) as ->.
  { apply base_budget_lookup in Hin, Hitem. congruence. }
  by apply Is_true_true.
Qed.

Lemma surplus_exceeds base demand :
  exceeds base demand = true -> surplus base demand = 0.
Proof.
  destruct demand as [size|]; simpl; [|done].
  intros H%Z.ltb_lt. destruct (Z.ltb_spec size base); lia.
Qed.

(** C5.  The budgets returned by [_reallocate_budgets] are those of the
    rule: the surplus of every category whose demand is below its base
    budget is pooled, every category whose demand exceeds its base budget
    is raised by the pool divided (integer division) by the number of such
    categories, and no other budget changes.  With an empty procedural
    bucket and episodic the only over-budget category, the episodic budget
    is raised by the whole procedural budget, plus the surplus of the
    other categories, and the other four budgets stay as they were. *)
Theorem reallocation_pools_surplus_evenly :
  (forall cb demands max_tokens cat,
     _reallocate_budgets cb demands max_tokens !! cat
     = reallocated cb demands cat)
  /\ (forall cb demands max_tokens,
        demands !! "procedural" = Some 0 ->
        over_budget cb demands = ["episodic"] ->
        let budgets := _reallocate_budgets cb demands max_tokens in
        budgets !! "episodic"
        = Some (episodic_tokens cb
                + (Z.max 0 (procedural_tokens cb)
                   + surplus (profile_tokens cb) (demands !! "profile")
                   + surplus (semantic_tokens cb) (demands !! "semantic")
                   + surplus (entity_tokens cb) (demands !! "entity")))
        /\ budgets !! "profile" = Some (profile_tokens cb)
        /\ budgets !! "semantic" = Some (semantic_tokens cb)
        /\ budgets !! "procedural" = Some (procedural_tokens cb)
        /\ budgets !! "entity" = Some (entity_tokens cb)).
Proof.
  split; [apply reallocate_budgets_lookup|].
  intros cb demands max_tokens Hproc Hover budgets. subst budgets.
  rewrite !reallocate_budgets_lookup. unfold reallocated, even_share.
  rewrite Hover.
  assert (surplus (episodic_tokens cb) (demands !! "episodic") = 0) as Hepi.
  { apply surplus_exceeds, (over_budget_exceeds cb).
    - rewrite Hover. apply elem_of_cons. by left.
    - unfold budget_items. rewrite !elem_of_cons. intuition congruence. }
  assert (surplus_pool cb demands
          = Z.max 0 (procedural_tokens cb)
            + surplus (profile_tokens cb) (demands !! "profile")
            + surplus (semantic_tokens cb) (demands !! "semantic")
            + surplus (entity_tokens cb) (demands !! "entity")) as ->.
  { unfold surplus_pool, budget_items. cbn [foldr fst snd].
    rewrite Hepi, Hproc. cbn [surplus].
    destruct (Z.ltb_spec 0 (procedural_tokens cb)); lia. }
  cbn [length]. rewrite Z.div_1_r.
  repeat split.
  all: erewrite base_budget_lookup
         by (unfold budget_items; rewrite !elem_of_cons; intuition congruence).
  all: cbn [fmap option_fmap option_map]; f_equal.
  all: first
         [ rewrite bool_decide_eq_true_2 by (apply elem_of_cons; by left); done
         | rewrite bool_decide_eq_false_2; [done|];
           rewrite elem_of_cons, elem_of_nil; intuition congruence ].
Qed.

(** Scenario D: the episodic budget 1500 becomes 1900, the procedural
    budget 400 being unused. *)
Lemma reallocation_scenario_D :
  _reallocate_budgets default_builder scenario_D_demands 5000 !! "episodic"
  = Some 1900.
Proof.
  exact (proj1 (proj2 reallocation_pools_surplus_evenly
                  default_builder scenario_D_demands 5000 eq_refl eq_refl)).
Defined.

End ContextBuilderProofs.

(** * The hybrid ranker: scores, deduplication, ordering *)

Module HybridRankerProofs.
Import HybridRanker HybridRankerSpec.
Local Open Scope R_scope.

(** Case analysis on the comparisons that [max] (the inner call) and then
    [min] make. *)
Ltac clamp_cases :=
  unfold clamp01, Rmin, Rmax;
  repeat match goal with
         | |- context [Rle_dec 0 ?b] => destruct (Rle_dec 0 b)
         end;
  repeat match goal with
         | |- context [Rle_dec ?a ?b] => destruct (Rle_dec a b)
         end;
  lra.

Lemma clamp01_bounds x : 0 <= clamp01 x <= 1.
Proof. clamp_cases. Qed.

Lemma clamp01_mono x y : x <= y -> clamp01 x <= clamp01 y.
Proof. intros Hxy. clamp_cases. Qed.

Lemma clamp01_id x : 0 <= x <= 1 -> clamp01 x = x.
Proof. intros Hx. clamp_cases. Qed.

Lemma ln_mono x y : 0 < x -> x <= y -> ln x <= ln y.
Proof.
  intros Hx [Hlt | ->]; [left; by apply ln_increasing | right; reflexivity].
Qed.

Lemma exp_mono x y : x <= y -> exp x <= exp y.
Proof.
  intros [Hlt | ->]; [left; by apply exp_increasing | right; reflexivity].
Qed.

Lemma ln_1001_pos : 0 < ln (IZR (1 + 1000)).
Proof.
  rewrite <- ln_1. apply ln_increasing; [lra | apply (IZR_lt 1); lia].
Qed.

Lemma ln_2_positive : 0 < ln 2.
Proof. rewrite <- ln_1. apply ln_increasing; lra. Qed.

Lemma frequency_score_bounds a : 0 <= _calculate_frequency_score a <= 1.
Proof.
  unfold _calculate_frequency_score.
  destruct (a <=? 0)%Z; [lra | apply clamp01_bounds].
Qed.

Lemma frequency_score_mono a b :
  (a <= b)%Z -> _calculate_frequency_score a <= _calculate_frequency_score b.
Proof.
  intros Hab. unfold _calculate_frequency_score.
  destruct (Z.leb_spec a 0) as [Ha|Ha].
  - destruct (Z.leb_spec b 0); [lra | apply clamp01_bounds].
  - destruct (Z.leb_spec b 0) as [Hb|Hb]; [lia|].
    apply clamp01_mono. apply Rmult_le_compat_r.
    + left. apply Rinv_0_lt_compat, ln_1001_pos.
    + apply ln_mono; [apply IZR_lt; lia | apply IZR_le; lia].
Qed.

Lemma recency_score_bounds c : 0 <= _calculate_recency_score c <= 1.
Proof.
  destruct c as [| |d]; simpl; [lra | lra |].
  destruct (exp_overflows d); [lra | apply clamp01_bounds].
Qed.

Lemma recency_score_antitone d1 d2 :
  (-30720 <= d1)%Z -> (d1 <= d2)%Z ->
  _calculate_recency_score (Age d2) <= _calculate_recency_score (Age d1).
Proof.
  intros Hlo Hd. unfold _calculate_recency_score, exp_overflows.
  destruct (Z.ltb_spec d1 (-30720)); [lia|].
  destruct (Z.ltb_spec d2 (-30720)); [lia|].
  apply clamp01_mono, exp_mono.
  apply IZR_le in Hd. pose proof ln_2_positive.
  assert (0 < ln 2 / 30) by (apply Rdiv_lt_0_compat; lra).
  nra.
Qed.

Lemma exp_nat_ln_2 (n : nat) : exp (INR n * ln 2) = 2 ^ n.
Proof.
  induction n as [|n IH].
  - simpl. rewrite Rmult_0_l. apply exp_0.
  - rewrite S_INR, Rmult_plus_distr_r, Rmult_1_l, exp_plus, IH.
    rewrite exp_ln by lra. simpl. lra.
Qed.

(** The threshold of [exp_overflows]: the days for which the decay is
    above [2 ^ 1024]. *)
Lemma exp_overflows_iff (d : Z) :
  exp_overflows d = true <-> 2 ^ 1024 < exp (- (ln 2 / 30) * IZR d).
Proof.
  rewrite <- exp_nat_ln_2. unfold exp_overflows.
  replace (INR 1024) with 1024 by (rewrite INR_IZR_INZ; reflexivity).
  pose proof ln_2_positive as Hln.
  rewrite Z.ltb_lt. split.
  - intros Hd. apply exp_increasing. apply IZR_lt in Hd. nra.
  - intros Hlt. apply exp_lt_inv in Hlt. apply lt_IZR. nra.
Qed.

Lemma clamp01_above x : 1 <= x -> clamp01 x = 1.
Proof.
  intros Hx. unfold clamp01, Rmin, Rmax.
  destruct (Rle_dec 0 x); destruct (Rle_dec 1 _); lra.
Qed.

Lemma recency_score_future d :
  (-30720 <= d <= 0)%Z -> _calculate_recency_score (Age d) = 1.
Proof.
  intros Hd. unfold _calculate_recency_score, exp_overflows.
  destruct (Z.ltb_spec d (-30720)); [lia|].
  apply clamp01_above. rewrite <- exp_0. apply exp_mono.
  pose proof ln_2_positive. assert (IZR d <= 0) by (apply (IZR_le d 0); lia).
  nra.
Qed.

(** C7.  [_calculate_frequency_score] never decreases when
    [access_count] grows and is 0 when [access_count <= 0]; both scores
    lie in [0,1], whatever the input.  [_calculate_recency_score] never
    increases when the age in days grows from -30720 on.  It does
    increase below: for a [created_at] 40000 days after now [math.exp]
    overflows and the score is the fallback 0.5, for one 30000 days after
    now (an older timestamp) the score is 1, as for every timestamp from
    now to 30720 days after now. *)
Theorem recency_score_rises_after_exp_overflow :
  _calculate_recency_score (Age (-40000)) = 5 / 10
  /\ _calculate_recency_score (Age (-30000)) = 1
  /\ (forall d : Z,
        (d < -30720)%Z -> _calculate_recency_score (Age d) = 5 / 10)
  /\ (forall d : Z,
        (-30720 <= d <= 0)%Z -> _calculate_recency_score (Age d) = 1)
  /\ (forall d : Z,
        (d < -30720)%Z <-> 2 ^ 1024 < exp (- (ln 2 / 30) * IZR d))
  /\ (forall d1 d2 : Z, (-30720 <= d1)%Z -> (d1 <= d2)%Z ->
        _calculate_recency_score (Age d2) <= _calculate_recency_score (Age d1))
  /\ (forall a b : Z, (a <= b)%Z ->
        _calculate_frequency_score a <= _calculate_frequency_score b)
  /\ (forall a : Z, (a <= 0)%Z -> _calculate_frequency_score a = 0)
  /\ (forall a : Z, 0 <= _calculate_frequency_score a <= 1)
  /\ (forall c : timestamp, 0 <= _calculate_recency_score c <= 1)
  /\ (forall rk1 rk2 r1 r2 a b,
        access_count r1 = Some a -> access_count r2 = Some b -> (a <= b)%Z ->
        s_frequency (_calculate_scores rk1 r1)
        <= s_frequency (_calculate_scores rk2 r2))
  /\ (forall rk1 rk2 r1 r2 d1 d2,
        created_at r1 = Age d1 -> created_at r2 = Age d2 ->
        (-30720 <= d1)%Z -> (d1 <= d2)%Z ->
        s_recency (_calculate_scores rk2 r2)
        <= s_recency (_calculate_scores rk1 r1)).
Proof.
  assert (forall d : Z,
            (d < -30720)%Z -> _calculate_recency_score (Age d) = 5 / 10)
    as Hover.
  { intros d Hd. unfold _calculate_recency_score, exp_overflows.
    by destruct (Z.ltb_spec d (-30720)); [|lia]. }
  split; [apply Hover; lia|].
  split; [apply recency_score_future; lia|].
  split; [exact Hover|].
  split; [exact recency_score_future|].
  split.
  { intros d. rewrite <- exp_overflows_iff. unfold exp_overflows.
    symmetry. apply Z.ltb_lt. }
  split; [exact recency_score_antitone|].
  split; [exact frequency_score_mono|].
  split.
  { intros a Ha. unfold _calculate_frequency_score.
    destruct (Z.leb_spec a 0); [reflexivity | lia]. }
  split; [exact frequency_score_bounds|].
  split; [exact recency_score_bounds|].
  split.
  - intros rk1 rk2 r1 r2 a b Ha Hb Hab. cbn [_calculate_scores s_frequency].
    rewrite Ha, Hb. by apply frequency_score_mono.
  - intros rk1 rk2 r1 r2 d1 d2 H1 H2 Hlo Hd. cbn [_calculate_scores s_recency].
    rewrite H1, H2. by apply recency_score_antitone.
Qed.

Lemma keyword_score_bounds x : 0 <= _normalize_keyword_score x <= 1.
Proof.
  unfold _normalize_keyword_score.
  destruct (Rle_dec x 0); [lra | apply clamp01_bounds].
Qed.

Lemma vector_score_bounds x : 0 <= _normalize_vector_score x <= 1.
Proof. apply clamp01_bounds. Qed.

Lemma reliability_score_bounds rk r :
  reliability_in_unit r -> 0 <= s_reliability (_calculate_scores rk r) <= 1.
Proof.
  unfold reliability_in_unit. simpl.
  destruct (reliability r); simpl; [tauto | lra].
Qed.

Lemma combined_score_bounds (rk : ranker) (r : result) :
  weights_nonneg rk -> reliability_in_unit r ->
  0 <= s_combined (_calculate_scores rk r) <= weight_total rk
  /\ (weight_total rk <= 1 -> s_combined (_calculate_scores rk r) <= 1).
Proof.
  intros (Hk & Hv & Hr & Hc & Hf) Hrel.
  pose proof (reliability_score_bounds rk r Hrel) as Brel.
  pose proof (keyword_score_bounds (get0 (keyword_score r))) as Bk.
  pose proof (vector_score_bounds (get0 (vector_score r))) as Bv.
  pose proof (recency_score_bounds (created_at r)) as Bc.
  pose proof (frequency_score_bounds (default 0%Z (access_count r))) as Bf.
  unfold weight_total. cbn [_calculate_scores s_combined s_reliability] in *.
  set (k := _normalize_keyword_score _) in *.
  set (v := _normalize_vector_score _) in *.
  set (c := _calculate_recency_score _) in *.
  set (f := _calculate_frequency_score _) in *.
  set (rel := default (5 / 10) (reliability r)) in *.
  split; [split|intros]; nra.
Qed.

Lemma or_float_some x d : x <> 0 -> or_float (Some x) d = x.
Proof.
  intros Hx. unfold or_float.
  destruct (Req_dec_T x 0); [contradiction|reflexivity].
Qed.

Lemma drifted_ranker_weights :
  drifted_ranker
  = {| keyword_weight := 1 / 1000; vector_weight := 554 / 1000;
       reliability_weight := 25 / 100; recency_weight := 15 / 100;
       frequency_weight := 5 / 100 |}.
Proof.
  unfold drifted_ranker, init. rewrite !or_float_some by lra. reflexivity.
Qed.

(** C3, as stated, fails: the weights 0.001, 0.554, 0.25, 0.15, 0.05 sum
    to 1.005, within the tolerance, and a result with vector score 1,
    reliability 1, age 0 and 1000 reads gets the combined score 1.004. *)
Lemma combined_score_above_one :
  Rabs (weight_total drifted_ranker - 1) <= 1 / 100
  /\ reliability_in_unit fresh_popular_hit
  /\ s_combined (_calculate_scores drifted_ranker fresh_popular_hit) = 1004 / 1000
  /\ 1 < s_combined (_calculate_scores drifted_ranker fresh_popular_hit).
Proof.
  rewrite drifted_ranker_weights.
  assert (s_combined (_calculate_scores
            {| keyword_weight := 1 / 1000; vector_weight := 554 / 1000;
               reliability_weight := 25 / 100; recency_weight := 15 / 100;
               frequency_weight := 5 / 100 |} fresh_popular_hit)
          = 1004 / 1000) as Hc.
  { cbn [_calculate_scores s_combined fresh_popular_hit keyword_weight
         vector_weight reliability_weight recency_weight frequency_weight
         keyword_score vector_score reliability created_at access_count
         get0 from_option].
    unfold Datatypes.id.
    assert (_normalize_keyword_score 0 = 0) as ->.
    { unfold _normalize_keyword_score. destruct (Rle_dec 0 0); lra. }
    assert (_normalize_vector_score 1 = 1) as ->.
    { unfold _normalize_vector_score. replace ((1 + 1) / 2) with 1 by lra.
      apply clamp01_id. lra. }
    assert (_calculate_recency_score (Age 0) = 1) as ->.
    { unfold _calculate_recency_score. rewrite Rmult_0_r, exp_0.
      apply clamp01_id. lra. }
    assert (_calculate_frequency_score 1000 = 1) as ->.
    { unfold _calculate_frequency_score. cbn [Z.leb Z.compare].
      unfold Rdiv. rewrite Rinv_r; [apply clamp01_id; lra|].
      apply Rgt_not_eq. rewrite <- ln_1.
      apply ln_increasing; [lra | apply (IZR_lt 1); lia]. }
    lra. }
  split; [|split; [|split]].
  - unfold weight_total; cbn. unfold Rabs. destruct (Rcase_abs _); lra.
  - unfold reliability_in_unit; cbn. lra.
  - exact Hc.
  - rewrite Hc. lra.
Qed.

Lemma default_ranker_weights :
  default_ranker
  = {| keyword_weight := 35 / 100; vector_weight := 25 / 100;
       reliability_weight := 20 / 100; recency_weight := 15 / 100;
       frequency_weight := 5 / 100 |}.
Proof. reflexivity. Qed.


Lemma insert_by_score_perm x l : insert_by_score x l ≡ₚ x :: l.
Proof.
  induction l as [|y l IH]; simpl; [done|].
  destruct (Rlt_dec _ _); [|done].
  rewrite IH. apply Permutation_swap.
Qed.

Lemma sort_by_score_perm l : sort_by_score l ≡ₚ l.
Proof.
  induction l as [|x l IH]; simpl; [done|].
  rewrite insert_by_score_perm. by rewrite IH.
Qed.

Lemma seen_get_None seen id : seen_get seen id = None <-> id ∉ seen.*1.
Proof.
  unfold seen_get. induction seen as [|[k r] seen IH]; simpl.
  - split; [intros _; apply not_elem_of_nil | done].
  - rewrite not_elem_of_cons. destruct (String.eqb_spec k id) as [->|Hne]; simpl.
    + split; [done | intros [? _]; done].
    + rewrite IH. split; [intros ?; split; [congruence|done] | tauto].
Qed.

Lemma seen_get_Some seen id r :
  seen_get seen id = Some r -> (id, r) ∈ seen.
Proof.
  unfold seen_get. induction seen as [|[k r'] seen IH]; simpl; [done|].
  destruct (String.eqb_spec k id) as [->|Hne]; simpl.
  - intros [= ->]. apply elem_of_cons. by left.
  - intros H. apply elem_of_cons. right. by apply IH.
Qed.

Lemma seen_replace_keys seen id r : (seen_replace seen id r).*1 = seen.*1.
Proof.
  unfold seen_replace. induction seen as [|[k r'] seen IH]; [done|].
  rewrite !fmap_cons, IH. f_equal. simpl.
  destruct (String.eqb_spec k id) as [->|]; reflexivity.
Qed.

Lemma merge_keeps_id r1 r2 : memory_id (_merge_results r1 r2) = memory_id r1.
Proof. reflexivity. Qed.

Lemma dedup_step_wf seen r : seen_wf seen -> seen_wf (dedup_step seen r).
Proof.
  intros [Hnd Hall]. unfold dedup_step.
  destruct (memory_id r) as [id|] eqn:Hid; [|by split].
  destruct (String.eqb_spec id "") as [->|Hne]; [by split|].
  destruct (seen_get seen id) as [existing|] eqn:Hget.
  - destruct (Rgt_dec _ _); [|by split].
    split; [by rewrite seen_replace_keys|].
    unfold seen_replace. apply Forall_fmap.
    eapply Forall_impl; [exact Hall|].
    intros [k r'] [Hk Hk']; simpl in *.
    destruct (String.eqb_spec k id) as [->|]; simpl; [|done].
    split; [|done]. simpl.
    apply seen_get_Some in Hget.
    rewrite Forall_forall in Hall. by destruct (Hall _ Hget).
  - apply seen_get_None in Hget. split.
    + rewrite fmap_app. simpl. apply NoDup_app. split; [done|].
      split; [|apply NoDup_singleton].
      intros k Hk Hk'. apply list_elem_of_singleton in Hk'. by subst.
    + apply Forall_app. split; [done|]. by apply Forall_singleton.
Qed.

Lemma dedup_step_keys seen r k :
  k ∈ (dedup_step seen r).*1
  <-> k ∈ seen.*1 \/ (memory_id r = Some k /\ k <> "").
Proof.
  unfold dedup_step.
  destruct (memory_id r) as [id|] eqn:Hid; [|split; [tauto|intros [?|[? _]]; done]].
  destruct (String.eqb_spec id "") as [->|Hne].
  { split; [tauto|]. intros [?|[ [= <-] ? ]]; done. }
  destruct (seen_get seen id) as [existing|] eqn:Hget.
  - assert (id ∈ seen.*1) as Hin.
    { apply seen_get_Some in Hget. apply list_elem_of_fmap.
      by exists (id, existing). }
    destruct (Rgt_dec _ _); rewrite ?seen_replace_keys.
    + split; [tauto|]. intros [?|[ [= <-] ? ]]; done.
    + split; [tauto|]. intros [?|[ [= <-] ? ]]; done.
  - rewrite fmap_app, elem_of_app. simpl. rewrite list_elem_of_singleton.
    split.
    + intros [? | ->]; [by left | by right].
    + intros [?|[ [= <-] ? ]]; [by left | by right].
Qed.

Lemma dedup_fold_wf results seen :
  seen_wf seen -> seen_wf (foldl dedup_step seen results).
Proof.
  revert seen. induction results as [|r results IH]; intros seen Hwf; simpl; [done|].
  by apply IH, dedup_step_wf.
Qed.


Lemma seen_wf_nil : seen_wf [].
Proof. split; [constructor | constructor]. Qed.

Lemma scored_keeps_id rk r : memory_id (scored rk r) = memory_id r.
Proof. reflexivity. Qed.




Lemma py_max_Rmax a b : py_max a b = Rmax a b.
Proof.
  unfold py_max, Rmax. destruct (Rgt_dec b a); destruct (Rle_dec a b); lra.
Qed.

Lemma rank_dedup_perm rk results :
  rank rk results true ≡ₚ scored rk <$> _deduplicate results.
Proof.
  destruct results as [|r results]; [done|].
  unfold rank. apply sort_by_score_perm.
Qed.

Lemma rank_keep_perm rk results :
  rank rk results false ≡ₚ scored rk <$> results.
Proof.
  destruct results as [|r results]; [done|].
  unfold rank. apply sort_by_score_perm.
Qed.


Lemma dedup_pair r1 r2 id :
  id <> "" -> memory_id r1 = Some id -> memory_id r2 = Some id ->
  get0 (score r1) < get0 (score r2) ->
  _deduplicate [r1; r2] = [_merge_results r1 r2].
Proof.
  intros Hid H1 H2 Hlt. unfold _deduplicate. cbn [foldl].
  unfold dedup_step at 2. rewrite H1.
  destruct (String.eqb_spec id ""); [done|].
  cbn [seen_get find fmap option_fmap option_map app].
  unfold dedup_step. rewrite H2.
  destruct (String.eqb_spec id ""); [done|].
  unfold seen_get. cbn [find fst]. rewrite String.eqb_refl.
  cbn [fmap option_fmap option_map snd].
  destruct (Rgt_dec _ _) as [_|Hn]; [|exfalso; apply Hn; exact Hlt].
  unfold seen_replace. cbn [fmap list_fmap fst]. rewrite String.eqb_refl.
  reflexivity.
Qed.


Lemma dedup_pair_keeps_first r1 r2 id :
  id <> "" -> memory_id r1 = Some id -> memory_id r2 = Some id ->
  get0 (score r2) <= get0 (score r1) ->
  _deduplicate [r1; r2] = [r1].
Proof.
  intros Hid H1 H2 Hle. unfold _deduplicate. cbn [foldl].
  unfold dedup_step at 2. rewrite H1.
  destruct (String.eqb_spec id ""); [done|].
  cbn [seen_get find fmap option_fmap option_map app].
  unfold dedup_step. rewrite H2.
  destruct (String.eqb_spec id ""); [done|].
  unfold seen_get. cbn [find fst]. rewrite String.eqb_refl.
  cbn [fmap option_fmap option_map snd].
  destruct (Rgt_dec _ _) as [Hgt|_]; [lra|]. reflexivity.
Qed.



Lemma dedup_step_merges seen r id existing :
  memory_id r = Some id -> id <> "" ->
  seen_get seen id = Some existing ->
  get0 (score existing) < get0 (score r) ->
  dedup_step seen r = seen_replace seen id (_merge_results existing r).
Proof.
  intros Hid Hne Hget Hlt. unfold dedup_step. rewrite Hid, Hget.
  destruct (String.eqb_spec id ""); [done|].
  destruct (Rgt_dec _ _) as [_|Hn]; [reflexivity|].
  exfalso. apply Hn. exact Hlt.
Qed.








Lemma dedup_output_has_id results r :
  r ∈ _deduplicate results -> truthy_str (memory_id r) = true.
Proof.
  unfold _deduplicate. intros Hin.
  apply list_elem_of_fmap in Hin as ([id r'] & -> & Hin).
  destruct (dedup_fold_wf results [] seen_wf_nil) as [_ Hall].
  rewrite Forall_forall in Hall. destruct (Hall _ Hin) as [Hid Hne].
  simpl in *. rewrite Hid. simpl.
  destruct (String.eqb_spec id ""); done.
Qed.

(** A property of results that merging keeps holds of every deduplicated
    result as soon as it holds of every input. *)
Lemma dedup_step_Forall (P : result -> Prop) seen r :
  (forall a b, P a -> P (_merge_results a b)) ->
  Forall P seen.*2 -> P r -> Forall P (dedup_step seen r).*2.
Proof.
  intros Hmerge Hseen Hr. unfold dedup_step.
  destruct (memory_id r) as [id|]; [|done].
  destruct (String.eqb id ""); [done|].
  destruct (seen_get seen id) as [existing|] eqn:Hget.
  - destruct (Rgt_dec _ _); [|done].
    assert (P existing) as Hex.
    { apply seen_get_Some in Hget. rewrite Forall_forall in Hseen.
      apply Hseen. apply list_elem_of_fmap. by exists (id, existing). }
    unfold seen_replace. rewrite <- list_fmap_compose.
    apply Forall_fmap. rewrite Forall_fmap in Hseen.
    eapply Forall_impl; [exact Hseen|].
    intros [k r'] Hr'. simpl in *.
    destruct (String.eqb k id); simpl; [by apply Hmerge | done].
  - rewrite fmap_app. apply Forall_app. split; [done|].
    by apply Forall_singleton.
Qed.

Lemma deduplicate_Forall (P : result -> Prop) results :
  (forall a b, P a -> P (_merge_results a b)) ->
  Forall P results -> Forall P (_deduplicate results).
Proof.
  intros Hmerge. unfold _deduplicate.
  assert (forall seen, Forall P seen.*2 -> Forall P results ->
                       Forall P (foldl dedup_step seen results).*2) as Hfold.
  { induction results as [|r results IH]; intros seen Hseen Hall; [done|].
    apply Forall_cons in Hall as [Hr Hall]. cbn [foldl].
    apply IH; [|done]. by apply dedup_step_Forall. }
  intros Hall. by apply Hfold.
Qed.

Lemma rank_elem_scored rk results deduplicate ranked :
  ranked ∈ rank rk results deduplicate ->
  exists r,
    ranked = scored rk r
    /\ r ∈ (if deduplicate then _deduplicate results else results).
Proof.
  intros Hin. destruct deduplicate.
  - rewrite rank_dedup_perm in Hin. by apply list_elem_of_fmap in Hin.
  - rewrite rank_keep_perm in Hin. by apply list_elem_of_fmap in Hin.
Qed.

(** C3, as amended.  With non-negative weights and a stored reliability
    in [0,1], the combined score lies between 0 and the sum of the
    weights; it is at most 1 when the weights sum to at most 1.  So does
    the [score] of every record that [rank] returns, with or without
    deduplication, when every input has its reliability in [0,1]. *)
Theorem combined_score_bounded_by_weight_total (rk : ranker) :
  weights_nonneg rk ->
  (forall r, reliability_in_unit r ->
     0 <= s_combined (_calculate_scores rk r) <= weight_total rk
     /\ (weight_total rk <= 1 -> s_combined (_calculate_scores rk r) <= 1))
  /\ (forall results deduplicate ranked,
        Forall reliability_in_unit results ->
        ranked ∈ rank rk results deduplicate ->
        exists s, score ranked = Some s
                  /\ 0 <= s <= weight_total rk
                  /\ (weight_total rk <= 1 -> s <= 1)).
Proof.
  intros Hw. split; [intros r Hr; by apply combined_score_bounds|].
  intros results deduplicate ranked Hall Hin.
  apply rank_elem_scored in Hin as (r & -> & Hr).
  assert (reliability_in_unit r) as Hrel.
  { destruct deduplicate.
    - pose proof (deduplicate_Forall reliability_in_unit results
                    (fun a b Ha => Ha) Hall) as Hd.
      rewrite Forall_forall in Hd. by apply Hd.
    - rewrite Forall_forall in Hall. by apply Hall. }
  exists (s_combined (_calculate_scores rk r)). split; [reflexivity|].
  by apply combined_score_bounds.
Qed.

Lemma combined_score_default_weights_in_unit :
  0 <= s_combined (_calculate_scores default_ranker week_old_hit) <= 1.
Proof.
  assert (weights_nonneg default_ranker) as Hw.
  { rewrite default_ranker_weights. unfold weights_nonneg; cbn.
    unfold settings_keyword_match_weight. lra. }
  assert (reliability_in_unit week_old_hit) as Hr.
  { unfold reliability_in_unit; cbn. lra. }
  assert (weight_total default_ranker <= 1) as Ht.
  { rewrite default_ranker_weights. unfold weight_total; cbn. lra. }
  destruct (proj1 (combined_score_bounded_by_weight_total default_ranker Hw)
              week_old_hit Hr) as [[Hlo _] Hhi].
  split; [exact Hlo | exact (Hhi Ht)].
Defined.

(** C10.  With [deduplicate=True] every record that [rank] returns has a
    non-empty [memory_id]: a result whose [memory_id] is missing, [None]
    or empty is in no output.  With [deduplicate=False] the output is a
    permutation of the scored inputs: every input is kept and scored. *)
Theorem dedup_drops_results_without_memory_id (rk : ranker)
  (results : list result) :
  (forall r, r ∈ rank rk results true -> truthy_str (memory_id r) = true)
  /\ (forall r, truthy_str (memory_id r) = false ->
        (r ∉ rank rk results true) /\ (scored rk r ∉ rank rk results true))
  /\ rank rk results false ≡ₚ scored rk <$> results
  /\ (forall r, r ∈ results -> scored rk r ∈ rank rk results false).
Proof.
  assert (forall r, r ∈ rank rk results true ->
                    truthy_str (memory_id r) = true) as Hkept.
  { intros r Hr. rewrite rank_dedup_perm in Hr.
    apply list_elem_of_fmap in Hr as (r0 & -> & Hr0).
    rewrite scored_keeps_id. by eapply dedup_output_has_id. }
  split; [exact Hkept|]. split; [|split].
  - intros r Hr. split; intros Hin; apply Hkept in Hin.
    + congruence.
    + rewrite scored_keeps_id in Hin. congruence.
  - apply rank_keep_perm.
  - intros r Hr. rewrite rank_keep_perm. by apply list_elem_of_fmap_2.
Qed.

Lemma dedup_drops_anonymous_hits :
  (forall r,
     r ∈ rank default_ranker [anonymous_hit; blank_id_hit; vector_hit] true ->
     truthy_str (memory_id r) = true)
  /\ scored default_ranker anonymous_hit
     ∈ rank default_ranker [anonymous_hit; blank_id_hit; vector_hit] false
  /\ scored default_ranker blank_id_hit
     ∈ rank default_ranker [anonymous_hit; blank_id_hit; vector_hit] false.
Proof.
  pose proof (dedup_drops_results_without_memory_id default_ranker
                [anonymous_hit; blank_id_hit; vector_hit])
    as (Hdrop & _ & _ & Hkeep).
  split; [exact Hdrop|].
  split; apply Hkeep; rewrite !elem_of_cons; tauto.
Defined.

Lemma rank_with_dedup_drops_example :
  rank default_ranker [anonymous_hit; blank_id_hit; vector_hit] true
  = [scored default_ranker vector_hit].
Proof. reflexivity. Qed.

End HybridRankerProofs.

(** * The query analyzer: intent, degenerate queries, memory kinds *)

Module QueryAnalyzerProofs.
Import Text QueryAnalyzer QueryAnalyzerSpec.

Example scenario_A_lowered :
  strip (lower scenario_A) = "what did i tell you about my dog last week?".
Proof. vm_compute. reflexivity. Qed.

Example scenario_A_keywords :
  _extract_keywords scenario_A = ["tell"; "about"; "dog"; "last"; "week"].
Proof. vm_compute. reflexivity. Qed.

(** Scenario A matches the third recall pattern ([what did]) and the first
    two question patterns. *)
Example scenario_A_matches :
  map (fun p => re_search p (strip (lower scenario_A))) recall_patterns
  = [false; false; true; false]
  /\ map (fun p => re_search p (strip (lower scenario_A))) question_patterns
     = [true; true; false].
Proof. vm_compute. split; reflexivity. Qed.

Example command_after_please :
  _detect_intent "please   help me fix the printer" = "command".
Proof. vm_compute. reflexivity. Qed.

Example word_boundary_is_checked :
  _detect_intent "i toldyou so" = "conversation".
Proof. vm_compute. reflexivity. Qed.

Example specific_date_is_found :
  _detect_time_reference "on 12/5/2024 we met" = Some "specific_date"
  /\ _detect_time_reference "on 123/5/2024 we met" = None.
Proof. vm_compute. split; reflexivity. Qed.

Lemma isspace_lower c : isspace c = true -> lower_char c = c.
Proof.
  destruct c as [[] [] [] [] [] [] [] []]; vm_compute; congruence.
Qed.

Lemma isspace_not_word c : isspace c = true -> is_word c = false.
Proof.
  destruct c as [[] [] [] [] [] [] [] []]; vm_compute; congruence.
Qed.

Lemma lower_whitespace s : whitespace_only s = true -> lower s = s.
Proof.
  induction s as [|c s IH]; simpl; [done|].
  intros [Hc Hs]%andb_true_iff. by rewrite isspace_lower, IH.
Qed.

Lemma lstrip_whitespace s : whitespace_only s = true -> lstrip s = "".
Proof.
  induction s as [|c s IH]; simpl; [done|].
  intros [Hc Hs]%andb_true_iff. rewrite Hc. by apply IH.
Qed.

Lemma strip_whitespace s : whitespace_only s = true -> strip s = "".
Proof. intros Hs. unfold strip. by rewrite lstrip_whitespace. Qed.

Lemma word_runs_whitespace s : whitespace_only s = true -> word_runs s = [].
Proof.
  unfold word_runs. induction s as [|c s IH]; simpl; [done|].
  intros [Hc Hs]%andb_true_iff. rewrite (isspace_not_word c Hc). by apply IH.
Qed.

Lemma extract_keywords_whitespace q :
  whitespace_only q = true -> _extract_keywords q = [].
Proof.
  intros Hq. unfold _extract_keywords.
  rewrite (lower_whitespace q Hq), (word_runs_whitespace q Hq). reflexivity.
Qed.

(** The clamped confidence passes the validation of [QueryAnalysis]. *)
Lemma confidence_in_unit intent keywords query :
  Qle_bool 0 (_calculate_confidence intent keywords query)
  && Qle_bool (_calculate_confidence intent keywords query) 1 = true.
Proof.
  unfold _calculate_confidence.
  repeat match goal with
         | |- context [if ?b then _ else _] =>
             match b with
             | Qle_bool _ _ => fail 1
             | _ => destruct b
             end
         end; vm_compute; reflexivity.
Qed.

Lemma memory_types_nonempty intent query :
  _determine_memory_types intent query <> [].
Proof.
  unfold _determine_memory_types.
  repeat match goal with
         | |- context [if ?b then _ else _] => destruct b
         end; discriminate.
Qed.

Section AnalyzeFacts.

Variable _extract_topics : string -> list string.
Variable _detect_entities : string -> list string.

(** [analyze] never raises. *)
Lemma analyze_total query :
  is_Some (analyze _extract_topics _detect_entities query).
Proof.
  unfold analyze, validated.
  cbn [confidence]. rewrite confidence_in_unit. eauto.
Qed.

(** C6.  The intent is that of the first group, in the order recall,
    command, question, with a matching pattern, and [conversation] when no
    group matches; so a query matching both a recall and a question
    pattern is a recall.  Scenario A matches both, and its analysis has
    intent [recall], time reference [week], [requires_memory] true and
    the four memory kinds. *)
Theorem intent_first_matching_group_wins :
  (forall q, any_match recall_patterns q = true -> _detect_intent q = "recall")
  /\ (forall q, any_match recall_patterns q = false ->
        any_match command_patterns q = true -> _detect_intent q = "command")
  /\ (forall q, any_match recall_patterns q = false ->
        any_match command_patterns q = false ->
        any_match question_patterns q = true -> _detect_intent q = "question")
  /\ (forall q, any_match recall_patterns q = false ->
        any_match command_patterns q = false ->
        any_match question_patterns q = false ->
        _detect_intent q = "conversation")
  /\ (let q := strip (lower "What did I tell you about my dog last week?") in
      any_match recall_patterns q = true
      /\ any_match question_patterns q = true)
  /\ (exists a,
        analyze _extract_topics _detect_entities
          "What did I tell you about my dog last week?" = Some a
        /\ intent a = "recall"
        /\ time_reference a = Some "week"
        /\ requires_memory a = true
        /\ memory_types_needed a
           = ["profile"; "semantic"; "episodic"; "procedural"]).
Proof.
  split; [|split; [|split; [|split; [|split]]]].
  - intros q H. unfold _detect_intent. by rewrite H.
  - intros q H1 H2. unfold _detect_intent. by rewrite H1, H2.
  - intros q H1 H2 H3. unfold _detect_intent. by rewrite H1, H2, H3.
  - intros q H1 H2 H3. unfold _detect_intent. by rewrite H1, H2, H3.
  - vm_compute. split; reflexivity.
  - eexists. split; [vm_compute; reflexivity|]. repeat split.
Qed.

(** C8.  On an empty or whitespace-only query [analyze] returns an
    analysis (the constructor accepts it) with intent [conversation], no
    keyword, and the confidence 0.5, which is below the 0.6 under which
    the analyzer counts a confidence as low. *)
Theorem analyze_whitespace_is_degenerate (query : string) :
  whitespace_only query = true ->
  exists a,
    analyze _extract_topics _detect_entities query = Some a
    /\ intent a = "conversation"
    /\ keywords a = []
    /\ confidence a = (5 # 10)%Q
    /\ low_confidence a = true.
Proof.
  intros Hq. unfold analyze.
  rewrite (lower_whitespace query Hq), (strip_whitespace query Hq).
  rewrite (extract_keywords_whitespace query Hq).
  eexists. split; [reflexivity|]. repeat split.
Qed.

(** C9.  Every query has an analysis, and in it [memory_types_needed] is
    non-empty whenever [requires_memory] is true. *)
Theorem memory_types_needed_when_memory_required (query : string) :
  exists a,
    analyze _extract_topics _detect_entities query = Some a
    /\ (requires_memory a = true -> memory_types_needed a <> []).
Proof.
  destruct (analyze_total query) as [a Ha]. exists a. split; [exact Ha|].
  intros _. unfold analyze, validated in Ha.
  destruct (_ && _) in Ha; [|discriminate].
  injection Ha as <-. cbn [memory_types_needed].
  apply memory_types_nonempty.
Qed.

End AnalyzeFacts.

Lemma recall_wins_over_question :
  _detect_intent "what did i tell you about my dog last week?" = "recall".
Proof.
  exact (proj1 (intent_first_matching_group_wins no_topics no_entities)
           "what did i tell you about my dog last week?" eq_refl).
Defined.

Lemma analyze_blank_query :
  exists a, analyze no_topics no_entities "   " = Some a
            /\ intent a = "conversation" /\ keywords a = [].
Proof.
  destruct (analyze_whitespace_is_degenerate no_topics no_entities "   "
              eq_refl) as (a & Ha & Hi & Hk & _).
  exists a. auto.
Defined.

Lemma memory_types_for_a_question :
  exists a, analyze no_topics no_entities "How do I reset my router?" = Some a
            /\ (requires_memory a = true -> memory_types_needed a <> []).
Proof.
  exact (memory_types_needed_when_memory_required no_topics no_entities
           "How do I reset my router?").
Defined.

End QueryAnalyzerProofs.

(** * The token counter: messages and truncation *)

Module TokenCounterMoreProofs.
Import TokenCounter TokenCounterMore TokenCounterMoreSpec ContextBuilderProofs.

Example slice_examples :
  slice_to "abcdef" 4 = "abcd" /\ slice_to "abcdef" 9 = "abcdef"
  /\ slice_to "abcdef" (-2) = "abcd" /\ slice_to "abcdef" (-9) = ""
  /\ slice_to "abcdef" 0 = "".
Proof. vm_compute. repeat split. Qed.

Example before_last_space_examples :
  before_last_space "one two three" = Some "one two"
  /\ before_last_space "one" = None
  /\ before_last_space "one " = Some "one"
  /\ before_last_space " " = Some "".
Proof. vm_compute. repeat split. Qed.

Lemma string_length_app (s t : string) :
  String.length (s ++ t) = (String.length s + String.length t)%nat.
Proof. induction s as [|c s IH]; simpl; [done|]. by rewrite IH. Qed.

Lemma substring_length n (s : string) :
  (String.length (String.substring 0 n s) <= n)%nat.
Proof.
  revert s. induction n as [|n IH]; intros s.
  - destruct s; simpl; lia.
  - destruct s as [|c s]; simpl; [lia|]. specialize (IH s). lia.
Qed.

Lemma substring_prefix n (s : string) :
  String.prefix (String.substring 0 n s) s = true.
Proof.
  revert s. induction n as [|n IH]; intros s.
  - destruct s; reflexivity.
  - destruct s as [|c s]; simpl; [reflexivity|].
    destruct (ascii_dec c c); [apply IH|congruence].
Qed.

Lemma before_last_space_length s kept :
  before_last_space s = Some kept ->
  (String.length kept < String.length s)%nat.
Proof.
  revert kept. induction s as [|c s IH]; intros kept; simpl; [done|].
  destruct (before_last_space s) as [k|].
  - intros [= <-]. simpl. specialize (IH k eq_refl). lia.
  - destruct (Ascii.eqb c " "); [|done]. intros [= <-]. simpl. lia.
Qed.

Lemma before_last_space_prefix s kept :
  before_last_space s = Some kept -> String.prefix kept s = true.
Proof.
  revert kept. induction s as [|c s IH]; intros kept; simpl; [done|].
  destruct (before_last_space s) as [k|].
  - intros [= <-]. simpl. destruct (ascii_dec c c); [by apply IH|congruence].
  - destruct (Ascii.eqb c " "); [|done]. intros [= <-]. reflexivity.
Qed.

Lemma prefix_trans (a b c : string) :
  String.prefix a b = true -> String.prefix b c = true -> String.prefix a c = true.
Proof.
  revert b c. induction a as [|x a IH]; intros b c Hab Hbc.
  - destruct c; reflexivity.
  - destruct b as [|y b]; [done|]. destruct c as [|z c]; [done|].
    simpl in *. destruct (ascii_dec x y) as [->|]; [|done].
    destruct (ascii_dec y z) as [->|]; [|done]. by eapply IH.
Qed.

Lemma count_estimate text : count None text = Z.of_nat (String.length text) / 4.
Proof.
  unfold count, estimate. destruct (String.eqb_spec text "") as [->|]; done.
Qed.

Lemma substring_length_exact n (s : string) :
  String.length (String.substring 0 n s) = Nat.min n (String.length s).
Proof.
  revert s. induction n as [|n IH]; intros s.
  - by destruct s.
  - destruct s as [|c s]; simpl; [done|]. by rewrite IH.
Qed.

Lemma slice_to_length text stop :
  Z.of_nat (String.length (slice_to text stop)) = slice_length text stop.
Proof.
  unfold slice_to, slice_length. rewrite substring_length_exact.
  destruct (Z.ltb_spec stop 0); lia.
Qed.

Lemma before_last_space_none s :
  before_last_space s = None -> has_space s = false.
Proof.
  induction s as [|c s IH]; simpl; [done|].
  destruct (before_last_space s); [done|].
  destruct (Ascii.eqb c " "); [done|]. intros _. by rewrite IH.
Qed.

Lemma before_last_space_some s kept :
  before_last_space s = Some kept ->
  exists tail, s = kept ++ String " " tail /\ has_space tail = false.
Proof.
  revert kept. induction s as [|c s IH]; intros kept; simpl; [done|].
  destruct (before_last_space s) as [k|] eqn:Hk.
  - intros [= <-]. destruct (IH k eq_refl) as (tail & -> & Htail).
    by exists tail.
  - destruct (Ascii.eqb_spec c " ") as [->|_]; [|done].
    intros [= <-]. exists s. split; [done|].
    by apply before_last_space_none.
Qed.

Lemma before_last_space_cut s :
  cut_at_last_space s (default s (before_last_space s)).
Proof.
  unfold cut_at_last_space.
  destruct (before_last_space s) as [kept|] eqn:Hk; simpl.
  - right. by apply before_last_space_some.
  - left. split; [|done]. by apply before_last_space_none.
Qed.

(** X1.  [truncate_to_tokens] without an encoder.  An empty text gives
    the empty text and a text within the budget comes back unchanged.  A
    longer text is sliced to [max_chars] characters ([4 * max_tokens],
    less 3 for the ellipsis; a negative [max_chars] counts from the end),
    the slice is cut at its last space when it has one, and ["..."] is
    appended exactly when the ellipsis is asked for.  When [max_tokens]
    is at least 1 (at least 0 without the ellipsis) the result, ellipsis
    included, is within [max_tokens] by the same estimate. *)
Theorem truncate_estimate_fits_budget (text : string) (max_tokens : Z)
  (add_ellipsis : bool) :
  (text = "" -> truncate_to_tokens_estimate text max_tokens add_ellipsis = "")
  /\ (count None text <= max_tokens ->
      truncate_to_tokens_estimate text max_tokens add_ellipsis = text)
  /\ (text <> "" -> max_tokens < count None text ->
      let max_chars :=
        if add_ellipsis then max_tokens * 4 - 3 else max_tokens * 4 in
      exists sliced kept,
        String.prefix sliced text = true
        /\ Z.of_nat (String.length sliced) = slice_length text max_chars
        /\ (0 <= max_chars -> Z.of_nat (String.length sliced) = max_chars)
        /\ cut_at_last_space sliced kept
        /\ truncate_to_tokens_estimate text max_tokens add_ellipsis
           = kept ++ (if add_ellipsis then "..." else ""))
  /\ ((if add_ellipsis then 1 else 0) <= max_tokens ->
      count None (truncate_to_tokens_estimate text max_tokens add_ellipsis)
      <= max_tokens).
Proof.
  assert (forall s : string, s ++ "" = s) as Happ.
  { induction s as [|c s IH]; [done|].
    change (String c (s ++ "") = String c s). by rewrite IH. }
  unfold truncate_to_tokens_estimate.
  split; [by intros ->|].
  destruct (String.eqb_spec text "") as [->|Hne].
  { split; [done|]. split; [done|].
    intros Hmax. change (count None "") with 0. destruct add_ellipsis; lia. }
  destruct (Z.leb_spec (count None text) max_tokens) as [Hfit|Hover].
  { split; [done|]. split; [intros; lia | done]. }
  set (max_chars := if add_ellipsis then max_tokens * 4 - 3 else max_tokens * 4).
  set (sliced := slice_to text max_chars).
  set (kept := default sliced (before_last_space sliced)).
  assert (String.length kept <= String.length sliced)%nat as Hlen.
  { unfold kept. destruct (before_last_space sliced) as [k|] eqn:Hk; simpl; [|lia].
    apply before_last_space_length in Hk. lia. }
  pose proof (slice_to_length text max_chars) as Hsl. fold sliced in Hsl.
  assert (max_chars < Z.of_nat (String.length text)) as Hlong.
  { rewrite count_estimate in Hover.
    assert (4 * (max_tokens + 1) <= Z.of_nat (String.length text)).
    { assert (max_tokens + 1 <= Z.of_nat (String.length text) / 4) as Hq by lia.
      pose proof (Z.mul_div_le (Z.of_nat (String.length text)) 4 ltac:(lia)).
      lia. }
    unfold max_chars. destruct add_ellipsis; lia. }
  split; [intros; lia|]. split.
  - intros _ _. exists sliced, kept.
    split; [apply substring_prefix|]. split; [exact Hsl|].
    split; [intros Hpos; rewrite Hsl; unfold slice_length;
            destruct (Z.ltb_spec max_chars 0); lia|].
    split; [apply before_last_space_cut|].
    destruct add_ellipsis; [reflexivity | by rewrite Happ].
  - intros Hmax.
    assert (Z.of_nat (String.length sliced) <= max_chars) as Hs.
    { rewrite Hsl. unfold slice_length.
      destruct (Z.ltb_spec max_chars 0);
        [unfold max_chars in *; destruct add_ellipsis; lia | lia]. }
    rewrite count_estimate.
    destruct add_ellipsis.
    + rewrite string_length_app. simpl String.length.
      apply Z.div_le_upper_bound; [lia|]. unfold max_chars in Hs. lia.
    + apply Z.div_le_upper_bound; [lia|]. unfold max_chars in Hs. lia.
Qed.

(** With [max_tokens = 0] and the ellipsis, [max_chars] is negative and the
    slice drops the last three characters only. *)
Example truncate_estimate_samples :
  truncate_to_tokens_estimate "the quick brown fox jumps" 3 true = "the..."
  /\ truncate_to_tokens_estimate "the quick brown fox jumps" 3 false = "the quick"
  /\ truncate_to_tokens_estimate "the quick brown fox jumps" 0 true
     = "the quick brown fox..."
  /\ count None "the quick brown fox..." = 5.
Proof. vm_compute. repeat split. Qed.

Lemma count_message_shift enc total m :
  count_message enc total m = total + count_message enc 0 m.
Proof. unfold count_message. destruct m; lia. Qed.

Lemma count_message_lower enc m : 4 <= count_message enc 0 m.
Proof.
  unfold count_message. destruct m as [c r|t|].
  - pose proof (count_nonneg enc (default "" c)).
    pose proof (count_nonneg enc (default "" r)). lia.
  - pose proof (count_nonneg enc t). lia.
  - lia.
Qed.

Lemma count_messages_fold enc messages total :
  foldl (count_message enc) total messages
  = total + foldl (count_message enc) 0 messages.
Proof.
  revert total. induction messages as [|m messages IH]; intros total; simpl; [lia|].
  rewrite IH, (IH (count_message enc 0 m)), (count_message_shift enc total). lia.
Qed.

(** X2.  [count_messages] charges 2 tokens once and at least 4 per
    message: the count of a concatenation is the sum of the counts less
    the 2 counted twice, and a list of [n] messages counts at least
    [4 n + 2] tokens, whatever the tokenizer. *)
Theorem count_messages_overhead (enc : encoder) (a b : list message) :
  count_messages enc (a ++ b)%list
  = count_messages enc a + count_messages enc b - 2
  /\ 4 * Z.of_nat (length a) + 2 <= count_messages enc a.
Proof.
  unfold count_messages. split.
  - rewrite foldl_app, count_messages_fold. lia.
  - induction a as [|m a IH]; simpl; [lia|].
    rewrite count_messages_fold. pose proof (count_message_lower enc m). lia.
Qed.

End TokenCounterMoreProofs.

(** * The token counter: splitting into chunks *)

Module TokenCounterSplitProofs.
Import TokenCounter TokenCounterMore TokenCounterMoreSpec.

Lemma count_counting e text :
  text <> "" -> count (counting e) text = Z.of_nat (length (encode e text)).
Proof.
  intros Hne. unfold count, counting.
  by destruct (String.eqb_spec text "").
Qed.

Lemma chunk_loop_never_returns e tokens chunk_size overlap fuel state :
  0 < overlap -> state.1 < Z.of_nat (length tokens) ->
  chunk_loop fuel e tokens chunk_size overlap state = None.
Proof.
  intros Hov. revert state.
  induction fuel as [|fuel IH]; intros [start chunks] Hstart; simpl in *.
  - destruct (Z.ltb_spec start (Z.of_nat (length tokens))); [done|lia].
  - destruct (Z.ltb_spec start (Z.of_nat (length tokens))); [|lia].
    apply IH. simpl. lia.
Qed.

Lemma chunk_steps_keep_running e tokens chunk_size overlap n :
  0 < overlap -> (0 < length tokens)%nat ->
  let state := Nat.iter n (chunk_step e tokens chunk_size overlap) (0, []) in
  state.1 < Z.of_nat (length tokens) /\ length state.2 = n.
Proof.
  intros Hov Hlen. induction n as [|n IH]; cbn zeta in *.
  - simpl. split; [lia|done].
  - simpl. destruct (Nat.iter n _ _) as [start chunks]. simpl in *.
    destruct IH as [Hs Hc]. split; [lia|].
    rewrite length_app, Hc. simpl. lia.
Qed.

(** X3.  [split_by_tokens] with an encoder and a positive [overlap]: on a text
    of more than [chunk_size] tokens the loop never ends.  After every
    number of iterations [start] is still below [len(tokens)] (the last
    chunk resets it to [len(tokens) - overlap]) and [chunks] has grown by
    one per iteration; no amount of fuel yields a result. *)
Theorem split_by_tokens_with_overlap_never_returns (e : encoding)
  (text : string) (chunk_size overlap : Z) :
  text <> "" -> 0 <= chunk_size ->
  chunk_size < count (counting e) text -> 0 < overlap ->
  (forall fuel, split_by_tokens_encoded fuel e text chunk_size overlap = None)
  /\ (forall n,
        let state :=
          Nat.iter n (chunk_step e (encode e text) chunk_size overlap)
            (0, []) in
        state.1 < Z.of_nat (length (encode e text))
        /\ length state.2 = n).
Proof.
  intros Hne Hsize Hcount Hov.
  rewrite count_counting in Hcount by done.
  split.
  - intros fuel. unfold split_by_tokens_encoded.
    destruct (String.eqb_spec text ""); [done|].
    rewrite count_counting by done.
    destruct (Z.leb_spec (Z.of_nat (length (encode e text))) chunk_size);
      [lia|].
    apply chunk_loop_never_returns; [done | simpl; lia].
  - intros n. apply chunk_steps_keep_running; [done | lia].
Qed.

Lemma split_abcdef_with_overlap_never_returns :
  "abcdef" <> "" /\ 0 <= 4 /\ 4 < count (counting char_encoding) "abcdef"
  /\ 0 < 1
  /\ (forall fuel, split_by_tokens_encoded fuel char_encoding "abcdef" 4 1
                   = None).
Proof.
  assert ("abcdef" <> "") as H1 by discriminate.
  assert (0 <= 4) as H2 by lia.
  assert (4 < count (counting char_encoding) "abcdef") as H3
    by (vm_compute; reflexivity).
  assert (0 < 1) as H4 by lia.
  split; [exact H1|]. split; [exact H2|]. split; [exact H3|].
  split; [exact H4|].
  exact (proj1 (split_by_tokens_with_overlap_never_returns
                  char_encoding "abcdef" 4 1 H1 H2 H3 H4)).
Defined.

(** ** Without overlap the loop ends *)

Lemma list_slice_inner {A : Type} (l : list A) start stop :
  0 <= start <= stop -> stop <= Z.of_nat (length l) ->
  list_slice l start stop
  = take (Z.to_nat (stop - start)) (drop (Z.to_nat start) l).
Proof.
  intros Hs He. unfold list_slice, slice_index.
  destruct (Z.ltb_spec start 0); [lia|].
  destruct (Z.ltb_spec stop 0); [lia|].
  by rewrite !Z.min_l by lia.
Qed.

Lemma chunk_loop_returns e tokens chunk_size fuel start pieces :
  0 < chunk_size ->
  0 <= start <= Z.of_nat (length tokens) ->
  (Z.to_nat (Z.of_nat (length tokens) - start) <= fuel)%nat ->
  concat pieces = take (Z.to_nat start) tokens ->
  Forall (piece_ok chunk_size) pieces ->
  exists pieces',
    chunk_loop fuel e tokens chunk_size 0 (start, decode e <$> pieces)
    = Some (decode e <$> pieces')
    /\ concat pieces' = tokens
    /\ Forall (piece_ok chunk_size) pieces'.
Proof.
  intros Hsize. revert start pieces.
  induction fuel as [|fuel IH]; intros start pieces Hstart Hfuel Hcat Hall.
  - simpl. destruct (Z.ltb_spec start (Z.of_nat (length tokens))); [lia|].
    exists pieces. split; [done|]. split; [|done].
    rewrite Hcat. apply take_ge. lia.
  - cbn [chunk_loop fst snd].
    destruct (Z.ltb_spec start (Z.of_nat (length tokens))) as [Hlt|Hge].
    + cbn [chunk_step].
      set (end_ := Z.min (start + chunk_size) (Z.of_nat (length tokens))).
      rewrite Z.sub_0_r.
      rewrite list_slice_inner by (unfold end_; lia).
      set (piece := take (Z.to_nat (end_ - start))
                      (drop (Z.to_nat start) tokens)).
      replace ((decode e <$> pieces) ++ [decode e piece])%list
        with (decode e <$> (pieces ++ [piece])%list)
        by (by rewrite fmap_app).
      apply IH.
      * unfold end_. lia.
      * unfold end_. lia.
      * rewrite concat_app, Hcat. simpl. rewrite app_nil_r. unfold piece.
        rewrite take_take_drop. f_equal. unfold end_. lia.
      * apply Forall_app. split; [done|]. apply Forall_singleton.
        unfold piece_ok, piece. rewrite length_take, length_drop.
        unfold end_. lia.
    + exists pieces. split; [done|]. split; [|done].
      rewrite Hcat. apply take_ge. lia.
Qed.

(** X4.  [split_by_tokens] with an encoder, no overlap and a positive
    [chunk_size] returns: an empty text gives no chunk, a text within
    [chunk_size] gives itself, and a longer one gives the decoded pieces of
    its tokens, which are not empty, have at most [chunk_size] tokens each
    and, put together, are the tokens of the text.  As many iterations as
    the text has tokens suffice. *)
Theorem split_by_tokens_without_overlap_covers_the_tokens (e : encoding)
  (text : string) (chunk_size : Z) (fuel : nat) :
  0 < chunk_size -> (length (encode e text) <= fuel)%nat ->
  (text = "" -> split_by_tokens_encoded fuel e text chunk_size 0 = Some [])
  /\ (text <> "" -> count (counting e) text <= chunk_size ->
      split_by_tokens_encoded fuel e text chunk_size 0 = Some [text])
  /\ (text <> "" -> chunk_size < count (counting e) text ->
      exists pieces,
        split_by_tokens_encoded fuel e text chunk_size 0
        = Some (decode e <$> pieces)
        /\ concat pieces = encode e text
        /\ Forall (piece_ok chunk_size) pieces).
Proof.
  intros Hsize Hfuel. unfold split_by_tokens_encoded.
  split; [intros ->; reflexivity|]. split.
  - intros Hne Hfit. destruct (String.eqb_spec text ""); [done|].
    destruct (Z.leb_spec (count (counting e) text) chunk_size); [done|lia].
  - intros Hne Hover. destruct (String.eqb_spec text ""); [done|].
    destruct (Z.leb_spec (count (counting e) text) chunk_size); [lia|].
    apply (chunk_loop_returns e (encode e text) chunk_size fuel 0 []);
      [done | lia | lia | done | constructor].
Qed.

Lemma split_abcdef_without_overlap :
  0 < 4 /\ (length (encode char_encoding "abcdef") <= 6)%nat
  /\ "abcdef" <> "" /\ 4 < count (counting char_encoding) "abcdef"
  /\ exists pieces,
       split_by_tokens_encoded 6 char_encoding "abcdef" 4 0
       = Some (decode char_encoding <$> pieces)
       /\ concat pieces = encode char_encoding "abcdef"
       /\ Forall (piece_ok 4) pieces.
Proof.
  assert (0 < 4) as H1 by lia.
  assert (length (encode char_encoding "abcdef") <= 6)%nat as H2
    by (vm_compute; lia).
  assert ("abcdef" <> "") as H3 by discriminate.
  assert (4 < count (counting char_encoding) "abcdef") as H4
    by (vm_compute; reflexivity).
  split; [exact H1|]. split; [exact H2|]. split; [exact H3|].
  split; [exact H4|].
  exact (proj2 (proj2 (split_by_tokens_without_overlap_covers_the_tokens
                         char_encoding "abcdef" 4 6 H1 H2)) H3 H4).
Defined.

Example split_abcdef_chunks :
  split_by_tokens_encoded 6 char_encoding "abcdef" 4 0 = Some ["abcd"; "ef"]
  /\ split_by_tokens_encoded 50 char_encoding "abcdef" 4 1 = None.
Proof. vm_compute. split; reflexivity. Qed.

End TokenCounterSplitProofs.

(** * The context builder: categories, the adaptive build, truncation *)

Module ContextBuilderMoreProofs.
Import TokenCounter ContextBuilder AdaptiveContextBuilder ContextBuilderSpec.
Import ContextBuilderProofs ContextBuilderMoreSpec TokenCounterMoreProofs.

Lemma categorize_fold (c : gmap string (list memory)) memories kind :
  foldl categorize_step c memories !! kind
  = (fun l => (l ++ filter (fun m => kind_of m = kind) memories)%list) <$> c !! kind.
Proof.
  revert c. induction memories as [|m memories IH]; intros c.
  - simpl. destruct (c !! kind); simpl; [|done]. by rewrite app_nil_r.
  - cbn [foldl]. rewrite IH. unfold categorize_step. fold (kind_of m).
    rewrite filter_cons.
    destruct (c !! kind_of m) as [l|] eqn:Hl.
    + destruct (decide (kind_of m = kind)) as [He|Hne].
      * rewrite <- He. rewrite lookup_insert_eq, Hl. simpl.
        by rewrite <- app_assoc.
      * by rewrite lookup_insert_ne.
    + destruct (decide (kind_of m = kind)) as [He|Hne]; [|done].
      rewrite <- He, Hl. done.
Qed.

Lemma empty_categories_lookup kind :
  empty_categories !! kind
  = if bool_decide (kind ∈ memory_kinds) then Some [] else None.
Proof.
  unfold empty_categories, memory_kinds.
  destruct (decide (kind = "profile")) as [->|H1]; [done|].
  destruct (decide (kind = "semantic")) as [->|H2]; [done|].
  destruct (decide (kind = "episodic")) as [->|H3]; [done|].
  destruct (decide (kind = "procedural")) as [->|H4]; [done|].
  rewrite bool_decide_eq_false_2.
  - rewrite !lookup_insert_ne by done. by rewrite lookup_singleton_ne.
  - rewrite !elem_of_cons, elem_of_nil. intuition congruence.
Qed.

(** X5.  [_categorize_memories] has exactly the four kinds as keys, and
    under each kind the memories of that kind in their input order, a
    memory without [memory_type] counting as semantic; a memory of any
    other kind is in no category. *)
Theorem categorize_partitions_by_kind (memories : list memory) (kind : string) :
  _categorize_memories memories !! kind
  = if bool_decide (kind ∈ memory_kinds)
    then Some (filter (fun m => kind_of m = kind) memories)
    else None.
Proof.
  unfold _categorize_memories. rewrite categorize_fold, empty_categories_lookup.
  destruct (bool_decide _); reflexivity.
Qed.

(** ** Packing is monotone in the budget *)

Lemma pack_from_budget_mono {A : Type} enc
  (convert : memory -> string -> option A)
  memories budget budget' current packed' :
  budget <= budget' ->
  pack_from enc convert memories budget' current = Some packed' ->
  exists packed,
    pack_from enc convert memories budget current = Some packed
    /\ packed `prefix_of` packed'.
Proof.
  intros Hb. revert current packed'.
  induction memories as [|m rest IH]; intros current packed'; cbn [pack_from].
  { intros [= <-]. by exists []. }
  destruct (Z.gtb_spec (current + count enc (default "" (content m))) budget).
  { intros _. exists []. split; [done | apply prefix_nil]. }
  destruct (Z.gtb_spec (current + count enc (default "" (content m))) budget');
    [lia|].
  destruct (convert m (default "" (content m))) as [typed|]; [|done].
  cbn [mbind option_bind].
  destruct (pack_from enc convert rest budget' _) as [rest'|] eqn:Hrest;
    [|done].
  intros [= <-].
  destruct (IH _ _ Hrest) as (packed & -> & Hprefix).
  exists (typed :: packed). split; [done | by apply prefix_cons].
Qed.

Lemma even_share_nonneg cb demands : 0 <= even_share cb demands.
Proof.
  unfold even_share.
  pose proof (pool_of_nonneg demands (budget_items cb)) as Hpool.
  change (pool_of demands (budget_items cb)) with (surplus_pool cb demands) in Hpool.
  destruct (over_budget cb demands) as [|c cats]; cbn [length].
  - rewrite Z.div_0_r. lia.
  - apply Z.div_pos; lia.
Qed.

Lemma raise_of_nonneg cb demands cat : 0 <= raise_of cb demands cat.
Proof.
  unfold raise_of. pose proof (even_share_nonneg cb demands).
  destruct (bool_decide _); lia.
Qed.

Lemma reallocated_total cb demands max_tokens cat base :
  (cat, base) ∈ budget_items cb ->
  _reallocate_budgets cb demands max_tokens !! cat
  = Some (base + raise_of cb demands cat)
  /\ _reallocate_budgets cb demands max_tokens !!! cat
     = base + raise_of cb demands cat.
Proof.
  intros Hin.
  assert (_reallocate_budgets cb demands max_tokens !! cat
          = Some (base + raise_of cb demands cat)) as Hlook.
  { rewrite reallocate_budgets_lookup. unfold reallocated, raise_of.
    rewrite (base_budget_lookup cb cat base Hin). simpl.
    destruct (bool_decide _); f_equal; lia. }
  split; [exact Hlook|]. by rewrite lookup_total_alt, Hlook.
Qed.

Lemma category_sizes_entity cb memories :
  (category_size cb <$> _categorize_memories memories) !! "entity" = None.
Proof.
  rewrite lookup_fmap. unfold _categorize_memories.
  rewrite categorize_fold, empty_categories_lookup. reflexivity.
Qed.

Lemma entity_not_over cb memories :
  "entity" ∉ over_budget cb (category_size cb <$> _categorize_memories memories).
Proof.
  intros Hin.
  pose proof (over_budget_exceeds cb _ "entity" (entity_tokens cb) Hin) as Hex.
  rewrite category_sizes_entity in Hex. simpl in Hex.
  assert (false = true) by (apply Hex; unfold budget_items;
                            rewrite !elem_of_cons; intuition congruence).
  discriminate.
Qed.

(** X6.  On the same memories and limit, whenever the adaptive build
    returns, so does the base build, and the adaptive context includes
    everything the base context includes: each of the four sections of
    the base context is a prefix of the adaptive one.  The entity context
    is the same: its budget is never raised. *)
Theorem adaptive_build_extends_base_build (is_uuid : string -> bool)
  (cb : builder) (memories : list memory) (max_tokens_arg : option Z)
  (entity : option string) (adaptive : MemoryContext) :
  AdaptiveContextBuilder.build is_uuid cb memories max_tokens_arg entity
  = Some adaptive ->
  exists base,
    ContextBuilder.build is_uuid cb memories max_tokens_arg entity = Some base
    /\ profile_memories base `prefix_of` profile_memories adaptive
    /\ semantic_memories base `prefix_of` semantic_memories adaptive
    /\ episodic_memories base `prefix_of` episodic_memories adaptive
    /\ procedural_memories base `prefix_of` procedural_memories adaptive
    /\ entity_context adaptive = entity_context base.
Proof.
  unfold ContextBuilder.build, AdaptiveContextBuilder.build.
  set (sizes := category_size cb <$> _categorize_memories memories).
  set (limit := or_int max_tokens_arg (max_tokens cb)).
  assert (forall cat base, (cat, base) ∈ budget_items cb ->
            base <= _reallocate_budgets cb sizes limit !!! cat) as Hge.
  { intros cat base Hin.
    destruct (reallocated_total cb sizes limit cat base Hin) as [_ ->].
    pose proof (raise_of_nonneg cb sizes cat). lia. }
  assert (forall cat base, In (cat, base) (budget_items cb) ->
            base <= _reallocate_budgets cb sizes limit !!! cat) as Hge'.
  { intros cat base Hin. by apply Hge, list_elem_of_In. }
  unfold _build_profile_section, _build_semantic_section,
    _build_episodic_section, _build_procedural_section.
  destruct (pack_from _ (to_profile is_uuid) _ (_ !!! "profile") 0)
    as [p'|] eqn:Hp; [|done].
  destruct (pack_from _ (to_semantic is_uuid) _ (_ !!! "semantic") 0)
    as [s'|] eqn:Hs; [|done].
  destruct (pack_from _ (to_episodic is_uuid) _ (_ !!! "episodic") 0)
    as [e'|] eqn:He; [|done].
  destruct (pack_from _ (to_procedural is_uuid) _ (_ !!! "procedural") 0)
    as [r'|] eqn:Hr; [|done].
  cbn [mbind option_bind]. intros [= <-].
  destruct (pack_from_budget_mono _ _ _ (profile_tokens cb) _ _ _
              (Hge' "profile" (profile_tokens cb) ltac:(simpl; tauto)) Hp) as (p & -> & Hpp).
  destruct (pack_from_budget_mono _ _ _ (semantic_tokens cb) _ _ _
              (Hge' "semantic" (semantic_tokens cb) ltac:(simpl; tauto)) Hs) as (sm & -> & Hss).
  destruct (pack_from_budget_mono _ _ _ (episodic_tokens cb) _ _ _
              (Hge' "episodic" (episodic_tokens cb) ltac:(simpl; tauto)) He) as (e & -> & Hee).
  destruct (pack_from_budget_mono _ _ _ (procedural_tokens cb) _ _ _
              (Hge' "procedural" (procedural_tokens cb) ltac:(simpl; tauto)) Hr) as (r & -> & Hrr).
  cbn [mbind option_bind]. eexists. split; [reflexivity|].
  cbn [profile_memories semantic_memories episodic_memories
       procedural_memories entity_context].
  repeat split; try done.
  f_equal.
  destruct (reallocated_total cb sizes limit "entity" (entity_tokens cb))
    as [-> _].
  { unfold budget_items. rewrite !elem_of_cons. intuition congruence. }
  unfold raise_of. rewrite bool_decide_eq_false_2
    by apply (entity_not_over cb memories).
  simpl. lia.
Qed.

(** With 20 tokens for semantic memories the base build packs the first
    of the two facts; the adaptive build, which gives the unused budgets
    of the other kinds to the semantic one, packs both. *)
Lemma adaptive_build_packs_both_facts :
  exists adaptive,
    AdaptiveContextBuilder.build canonical_uuid tight_semantic_builder
      two_facts None None = Some adaptive
    /\ length (semantic_memories adaptive) = 2%nat
    /\ exists base,
         ContextBuilder.build canonical_uuid tight_semantic_builder
           two_facts None None = Some base
         /\ profile_memories base `prefix_of` profile_memories adaptive
         /\ semantic_memories base `prefix_of` semantic_memories adaptive
         /\ episodic_memories base `prefix_of` episodic_memories adaptive
         /\ procedural_memories base `prefix_of` procedural_memories adaptive
         /\ entity_context adaptive = entity_context base.
Proof.
  eassert (AdaptiveContextBuilder.build canonical_uuid tight_semantic_builder
             two_facts None None = Some _) as Hbuild
    by (vm_compute; reflexivity).
  eexists. split; [exact Hbuild|]. split; [reflexivity|].
  exact (adaptive_build_extends_base_build canonical_uuid
           tight_semantic_builder two_facts None None _ Hbuild).
Defined.

Example base_build_packs_one_fact :
  exists base,
    ContextBuilder.build canonical_uuid tight_semantic_builder
      two_facts None None = Some base
    /\ length (semantic_memories base) = 1%nat.
Proof. eexists. split; [vm_compute; reflexivity | reflexivity]. Qed.

(** ** Conservation in the reallocation *)

Lemma over_budget_iff cb demands cat base :
  (cat, base) ∈ budget_items cb ->
  cat ∈ over_budget cb demands <-> exceeds base (demands !! cat) = true.
Proof.
  intros Hin. split; [intros Ho; by eapply over_budget_exceeds|].
  intros Hex. unfold over_budget. apply list_elem_of_fmap.
  exists (cat, base). split; [done|]. apply list_elem_of_filter.
  split; [simpl; by rewrite Hex | done].
Qed.

Lemma total_budget_sublist cb demands max_tokens items :
  (forall item, item ∈ items -> item ∈ budget_items cb) ->
  total_budget (_reallocate_budgets cb demands max_tokens) items
  = total_base items
    + even_share cb demands * Z.of_nat (length (over_of demands items)).
Proof.
  induction items as [|[cat base] items IH]; intros Hsub.
  - simpl. lia.
  - cbn [total_budget total_base foldr fst snd].
    fold (total_budget (_reallocate_budgets cb demands max_tokens) items).
    fold (total_base items).
    rewrite IH by (intros item Hitem; apply Hsub, elem_of_cons; by right).
    assert ((cat, base) ∈ budget_items cb) as Hin
      by (apply Hsub, elem_of_cons; by left).
    destruct (reallocated_total cb demands max_tokens cat base Hin) as [_ ->].
    unfold over_of. rewrite filter_cons. cbn [fst snd]. unfold raise_of.
    pose proof (over_budget_iff cb demands cat base Hin) as Hiff.
    destruct (exceeds base (demands !! cat)) eqn:Hex.
    + rewrite decide_True by (simpl; tauto). cbn [fmap list_fmap length].
      rewrite bool_decide_eq_true_2 by (by apply Hiff).
      fold (over_of demands items). lia.
    + rewrite decide_False by (simpl; tauto).
      rewrite bool_decide_eq_false_2
        by (intros Ho; apply Hiff in Ho; congruence).
      fold (over_of demands items). lia.
Qed.

(** X7.  [_reallocate_budgets] never lowers a budget; the budgets add up
    to the base budgets plus one even share per category over budget;
    what is handed out is at most the pooled surplus, and what the
    integer division leaves of the pool is less than the number of
    categories that were raised. *)
Theorem reallocation_hands_out_at_most_the_pool (cb : builder)
  (demands : gmap string Z) (max_tokens : Z) :
  let budgets := _reallocate_budgets cb demands max_tokens in
  let raised := Z.of_nat (length (over_budget cb demands)) in
  (forall cat base, (cat, base) ∈ budget_items cb ->
     exists new, budgets !! cat = Some new /\ base <= new)
  /\ total_budget budgets (budget_items cb)
     = total_base (budget_items cb) + even_share cb demands * raised
  /\ even_share cb demands * raised <= surplus_pool cb demands
  /\ (0 < raised ->
      surplus_pool cb demands - even_share cb demands * raised < raised).
Proof.
  cbv zeta. split; [|split; [|split]].
  - intros cat base Hin.
    destruct (reallocated_total cb demands max_tokens cat base Hin) as [-> _].
    eexists. split; [reflexivity|].
    pose proof (raise_of_nonneg cb demands cat). lia.
  - by apply total_budget_sublist.
  - unfold even_share.
    pose proof (pool_of_nonneg demands (budget_items cb)) as Hpool.
    change (pool_of demands (budget_items cb))
      with (surplus_pool cb demands) in Hpool.
    destruct (over_budget cb demands) as [|c cats]; cbn [length]; [lia|].
    rewrite Z.mul_comm. apply Z.mul_div_le. lia.
  - intros Hpos. unfold even_share.
    pose proof (Z.mod_pos_bound (surplus_pool cb demands)
                  (Z.of_nat (length (over_budget cb demands))) Hpos).
    pose proof (Z.div_mod (surplus_pool cb demands)
                  (Z.of_nat (length (over_budget cb demands)))).
    lia.
Qed.

(** ** Truncation of the entity context *)

Lemma truncation_point_bounds enc words limit low high :
  (low <= high)%nat ->
  (low = 0%nat \/ fits enc words limit low) ->
  let r := truncation_point enc words limit low high in
  (low <= r <= high)%nat /\ (r = 0%nat \/ fits enc words limit r).
Proof.
  cbv zeta. funelim (truncation_point enc words limit low high);
    intros Hle Hlow.
  - pose proof (Nat.div_mod_eq (low + high + 1) 2).
    pose proof (Nat.mod_upper_bound (low + high + 1) 2).
    match goal with
    | |- context [Z.leb ?a ?b] => destruct (Z.leb_spec a b) as [Hfit|Hno]
    end.
    + match goal with
      | IH : (_ <= high)%nat -> _ -> _ /\ _ |- _ =>
          destruct IH as [Hb Hf]; [lia | right; exact Hfit |]
      end.
      split; [lia | exact Hf].
    + match goal with
      | IH : (low <= _)%nat -> _ -> _ /\ _ |- _ =>
          destruct IH as [Hb Hf]; [lia | exact Hlow |]
      end.
      split; [lia | exact Hf].
  - split; [lia | exact Hlow].
Qed.

(** With a token count that grows with the number of words kept, the
    search returns the largest number of words that fits. *)
Lemma truncation_point_maximal enc words limit low high :
  (forall j k, (j <= k)%nat -> fits enc words limit k -> fits enc words limit j) ->
  (low <= high)%nat ->
  (forall k, (high < k <= length words)%nat -> ~ fits enc words limit k) ->
  forall k, (truncation_point enc words limit low high < k <= length words)%nat ->
            ~ fits enc words limit k.
Proof.
  intros Hmono. funelim (truncation_point enc words limit low high);
    intros Hle Habove.
  - pose proof (Nat.div_mod_eq (low + high + 1) 2).
    pose proof (Nat.mod_upper_bound (low + high + 1) 2).
    match goal with
    | |- context [Z.leb ?a ?b] => destruct (Z.leb_spec a b) as [Hfit|Hno]
    end.
    + match goal with
      | IH : _ -> (_ <= high)%nat -> _ |- _ => apply IH; [exact Hmono | lia | exact Habove]
      end.
    + match goal with
      | IH : _ -> (low <= _)%nat -> _ |- _ => apply IH; [exact Hmono | lia |]
      end.
      intros k Hk Hfit.
      apply (Hmono ((low + high + 1) / 2)%nat k) in Hfit; [|lia].
      unfold fits in Hfit. lia.
  - intros k Hk. apply Habove. lia.
Qed.

Lemma concat_cons_length (w : string) (l : list string) :
  String.length (String.concat " " (w :: l))
  = (String.length w
     + match l with
       | [] => 0
       | _ :: _ => 1 + String.length (String.concat " " l)
       end)%nat.
Proof.
  destruct l as [|x l]; [simpl; lia|].
  change (String.concat " " (w :: x :: l))
    with (w ++ " " ++ String.concat " " (x :: l)).
  rewrite !string_length_app. simpl. lia.
Qed.

Lemma concat_take_length_mono (words : list string) j k :
  (j <= k)%nat ->
  (String.length (String.concat " " (take j words))
   <= String.length (String.concat " " (take k words)))%nat.
Proof.
  revert j k. induction words as [|w words IH]; intros j k Hjk.
  - by rewrite !take_nil.
  - destruct j as [|j]; [simpl; lia|].
    destruct k as [|k]; [lia|].
    cbn [take]. rewrite !concat_cons_length.
    specialize (IH j k ltac:(lia)).
    destruct (take j words) as [|x l] eqn:Hj; [lia|].
    destruct (take k words) as [|y l'] eqn:Hk; [|lia].
    exfalso.
    assert (length (take j words) <= length (take k words))%nat as Hlen
      by (rewrite !length_take; lia).
    rewrite Hj, Hk in Hlen. simpl in Hlen. lia.
Qed.

Lemma fits_estimate_mono words limit j k :
  (j <= k)%nat -> fits None words limit k -> fits None words limit j.
Proof.
  unfold fits. rewrite !count_estimate. intros Hjk Hk.
  pose proof (concat_take_length_mono words j k Hjk).
  assert (Z.of_nat (String.length (String.concat " " (take j words))) / 4
          <= Z.of_nat (String.length (String.concat " " (take k words))) / 4)
    by (apply Z.div_le_mono; lia).
  lia.
Qed.

(** X8.  [_truncate_to_tokens]: a text within the limit is returned as
    it is; a longer one becomes the first [n] of its words joined by
    single spaces, followed by ["..."], where the [n] words fit the limit
    (or [n = 0]); with the estimating tokenizer no longer prefix of the
    words fits. *)
Theorem truncate_keeps_a_fitting_word_prefix (cb : builder) (text : string)
  (limit : Z) :
  (count (token_counter cb) text <= limit ->
   _truncate_to_tokens cb text limit = text)
  /\ (text <> "" -> limit < count (token_counter cb) text ->
      let words := split text in
      exists n,
        (n <= length words)%nat
        /\ _truncate_to_tokens cb text limit
           = String.concat " " (take n words) ++ "..."
        /\ (n = 0%nat \/ fits (token_counter cb) words limit n)
        /\ (token_counter cb = None ->
            forall k, (n < k <= length words)%nat ->
                      ~ fits (token_counter cb) words limit k)).
Proof.
  split.
  - intros Hfit. unfold _truncate_to_tokens.
    destruct (String.eqb_spec text "") as [->|]; [done|].
    destruct (Z.leb_spec (count (token_counter cb) text) limit); [done|lia].
  - intros Hne Hover words. unfold _truncate_to_tokens.
    destruct (String.eqb_spec text ""); [done|].
    destruct (Z.leb_spec (count (token_counter cb) text) limit); [lia|].
    fold words.
    destruct (truncation_point_bounds (token_counter cb) words limit 0
                (length words) ltac:(lia) ltac:(by left)) as [Hb Hf].
    exists (truncation_point (token_counter cb) words limit 0 (length words)).
    split; [lia|]. split; [reflexivity|]. split; [exact Hf|].
    intros Henc. rewrite Henc.
    apply truncation_point_maximal; [apply fits_estimate_mono | lia |].
    intros k Hk. lia.
Qed.

End ContextBuilderMoreProofs.


(** * The hybrid ranker: order, monotonicity, duplicates, context *)

Module HybridRankerMoreProofs.
Import HybridRanker HybridRankerSpec HybridRankerProofs.
Import HybridRankerMore HybridRankerMoreSpec.
Local Open Scope R_scope.

(** The sort of [rank] is the generic one. *)
Lemma sort_by_score_generic l : sort_by_score l = sort_desc sort_key l.
Proof.
  unfold sort_by_score, sort_desc. induction l as [|x l IH]; simpl; [done|].
  rewrite IH. generalize (foldr (insert_desc sort_key) [] l). intros s.
  induction s as [|y s IHs]; simpl; [done|].
  destruct (Rlt_dec _ _); [by rewrite IHs | done].
Qed.

Section Sorting.
Context {A : Type} (key : A -> R).

Lemma insert_desc_perm x l : insert_desc key x l ≡ₚ x :: l.
Proof.
  induction l as [|y l IH]; simpl; [done|].
  destruct (Rlt_dec _ _); [|done].
  rewrite IH. apply Permutation_swap.
Qed.

Lemma sort_desc_perm l : sort_desc key l ≡ₚ l.
Proof.
  induction l as [|x l IH]; simpl; [done|].
  rewrite insert_desc_perm. by rewrite IH.
Qed.

Lemma insert_desc_sorted x l :
  descending key l -> descending key (insert_desc key x l).
Proof.
  induction 1 as [|y l Hl IH Hy]; simpl.
  - repeat constructor.
  - destruct (Rlt_dec (key x) (key y)) as [Hlt|Hge].
    + constructor; [exact IH|].
      rewrite Forall_forall. intros z Hz.
      rewrite insert_desc_perm in Hz. apply elem_of_cons in Hz as [->|Hz].
      * lra.
      * rewrite Forall_forall in Hy. by apply Hy.
    + constructor; [by constructor|].
      constructor; [lra|].
      eapply Forall_impl; [exact Hy|]. intros z Hz. simpl in Hz. lra.
Qed.

Lemma sort_desc_sorted l : descending key (sort_desc key l).
Proof.
  induction l as [|x l IH]; simpl; [constructor|].
  by apply insert_desc_sorted.
Qed.

(** Stability: the elements of any one key keep their order. *)
Lemma insert_desc_stable v x l :
  filter (fun a => key a = v) (insert_desc key x l)
  = filter (fun a => key a = v) (x :: l).
Proof.
  induction l as [|y l IH]; simpl; [done|].
  destruct (Rlt_dec (key x) (key y)) as [Hlt|Hge]; [|done].
  rewrite (filter_cons _ y), IH, !filter_cons.
  destruct (decide (key y = v)) as [Hy|Hy];
    destruct (decide (key x = v)) as [Hx|Hx]; try done.
  lra.
Qed.

Lemma sort_desc_stable v l :
  filter (fun a => key a = v) (sort_desc key l) = filter (fun a => key a = v) l.
Proof.
  induction l as [|x l IH]; simpl; [done|].
  rewrite insert_desc_stable, !filter_cons, IH. done.
Qed.

End Sorting.

(** X9.  [rank] returns the scored results (of the deduplicated list, when
    asked) in descending order of [score], none lost or added; results of
    equal score keep the order they had before the sort. *)
Theorem rank_orders_by_score_and_keeps_ties (rk : ranker)
  (results : list result) (deduplicate : bool) :
  let kept := if deduplicate then _deduplicate results else results in
  descending sort_key (rank rk results deduplicate)
  /\ rank rk results deduplicate ≡ₚ scored rk <$> kept
  /\ (forall v : R,
        filter (fun r => sort_key r = v) (rank rk results deduplicate)
        = filter (fun r => sort_key r = v) (scored rk <$> kept)).
Proof.
  cbv zeta. destruct results as [|r results].
  { cbn [rank]. destruct deduplicate; repeat split; try constructor. }
  unfold rank. rewrite sort_by_score_generic.
  split; [apply sort_desc_sorted|]. split; [apply sort_desc_perm|].
  intros v. apply sort_desc_stable.
Qed.

Lemma tanh_mono x y : x <= y -> tanh x <= tanh y.
Proof.
  intros Hxy. unfold tanh, sinh, cosh.
  pose proof (exp_pos x) as Ha. pose proof (exp_pos (- x)) as Ha'.
  pose proof (exp_pos y) as Hb. pose proof (exp_pos (- y)) as Hb'.
  pose proof (exp_mono x y Hxy) as Hab.
  pose proof (exp_mono (- y) (- x) ltac:(lra)) as Hba.
  set (a := exp x) in *. set (a' := exp (- x)) in *.
  set (b := exp y) in *. set (b' := exp (- y)) in *.
  apply (Rmult_le_reg_r ((a + a') / 2 * ((b + b') / 2))); [nra|].
  replace ((a - a') / 2 / ((a + a') / 2) * ((a + a') / 2 * ((b + b') / 2)))
    with ((a - a') / 2 * ((b + b') / 2)) by (field; lra).
  replace ((b - b') / 2 / ((b + b') / 2) * ((a + a') / 2 * ((b + b') / 2)))
    with ((b - b') / 2 * ((a + a') / 2)) by (field; lra).
  nra.
Qed.

Lemma keyword_score_mono x y :
  x <= y -> _normalize_keyword_score x <= _normalize_keyword_score y.
Proof.
  intros Hxy. unfold _normalize_keyword_score.
  destruct (Rle_dec x 0) as [Hx|Hx]; destruct (Rle_dec y 0) as [Hy|Hy].
  - lra.
  - apply clamp01_bounds.
  - lra.
  - apply clamp01_mono, tanh_mono. lra.
Qed.

Lemma vector_score_mono x y :
  x <= y -> _normalize_vector_score x <= _normalize_vector_score y.
Proof. intros Hxy. apply clamp01_mono. lra. Qed.

(** X10.  The two normalisations are monotone, the vector one sending
    every similarity up to -1 to 0 and every one from 1 on to 1; so with
    non-negative weights a result with keyword score, vector score and
    reliability at least those of another, of the same age and access
    count, gets a combined score at least as high. *)
Theorem better_raw_scores_never_lower_the_combined_score :
  (forall x y, x <= y ->
     _normalize_keyword_score x <= _normalize_keyword_score y)
  /\ (forall x y, x <= y ->
        _normalize_vector_score x <= _normalize_vector_score y)
  /\ (forall x, x <= -1 -> _normalize_vector_score x = 0)
  /\ (forall x, 1 <= x -> _normalize_vector_score x = 1)
  /\ (forall rk r1 r2,
        weights_nonneg rk ->
        get0 (keyword_score r1) <= get0 (keyword_score r2) ->
        get0 (vector_score r1) <= get0 (vector_score r2) ->
        default (5 / 10) (reliability r1) <= default (5 / 10) (reliability r2) ->
        created_at r1 = created_at r2 ->
        access_count r1 = access_count r2 ->
        s_combined (_calculate_scores rk r1)
        <= s_combined (_calculate_scores rk r2)).
Proof.
  split; [exact keyword_score_mono|]. split; [exact vector_score_mono|].
  split; [|split].
  - intros x Hx. unfold _normalize_vector_score. clamp_cases.
  - intros x Hx. unfold _normalize_vector_score. clamp_cases.
  - intros rk r1 r2 (Hk & Hv & Hr & Hc & Hf) Hkw Hvec Hrel Hcreated Haccess.
    cbn [_calculate_scores s_combined]. rewrite Hcreated, Haccess.
    pose proof (keyword_score_mono _ _ Hkw).
    pose proof (vector_score_mono _ _ Hvec).
    set (k1 := _normalize_keyword_score _) in *.
    set (k2 := _normalize_keyword_score _) in *.
    set (v1 := _normalize_vector_score _) in *.
    set (v2 := _normalize_vector_score _) in *.
    set (c := _calculate_recency_score _).
    set (f := _calculate_frequency_score _).
    nra.
Qed.

(** ** What deduplication keeps of the duplicates *)

Lemma first_with_id_snoc id l r :
  first_with_id id (l ++ [r])
  = match first_with_id id l with
    | Some x => Some x
    | None => if bool_decide (memory_id r = Some id) then Some r else None
    end.
Proof.
  unfold first_with_id. induction l as [|x l IH]; simpl; [done|].
  destruct (bool_decide (memory_id x = Some id)); [done | exact IH].
Qed.

Lemma first_with_id_None id l :
  (forall r, r ∈ l -> memory_id r <> Some id) -> first_with_id id l = None.
Proof.
  unfold first_with_id. induction l as [|x l IH]; intros Hno; simpl; [done|].
  rewrite bool_decide_eq_false_2 by (apply Hno, elem_of_cons; by left).
  apply IH. intros r Hr. apply Hno, elem_of_cons. by right.
Qed.

Lemma seen_one_entry_per_key (seen : list (string * result)) k e1 e2 :
  NoDup seen.*1 -> (k, e1) ∈ seen -> (k, e2) ∈ seen -> e1 = e2.
Proof.
  induction seen as [|[k' e'] seen IH]; simpl; intros Hnd H1 H2;
    [by apply elem_of_nil in H1|].
  apply NoDup_cons in Hnd as [Hk' Hnd].
  assert (forall e, (k', e) ∈ seen -> False) as Hno.
  { intros e He. apply Hk', list_elem_of_fmap. by exists (k', e). }
  apply elem_of_cons in H1 as [H1|H1]; apply elem_of_cons in H2 as [H2|H2].
  - congruence.
  - injection H1 as -> ->. by destruct (Hno _ H2).
  - injection H2 as -> ->. by destruct (Hno _ H1).
  - by apply IH.
Qed.

Lemma kept_for_unchanged id done e r :
  kept_for id done e ->
  (memory_id r = Some id -> get0 (score r) <= get0 (score e)) ->
  kept_for id (done ++ [r]) e.
Proof.
  intros (Hid & Hne & (first & Hfirst & Hsame) & Hmax & (w & Hw & Hwid & Hws)) Hr.
  split; [done|]. split; [done|]. split; [|split].
  - exists first. split; [|done]. by rewrite first_with_id_snoc, Hfirst.
  - intros x Hx Hxid. apply elem_of_app in Hx as [Hx|Hx]; [by apply Hmax|].
    apply list_elem_of_singleton in Hx. subst. by apply Hr.
  - exists w. split; [|done]. apply elem_of_app. by left.
Qed.

Lemma kept_for_merged id done e r :
  kept_for id done e -> memory_id r = Some id ->
  get0 (score e) < get0 (score r) ->
  kept_for id (done ++ [r]) (_merge_results e r).
Proof.
  intros (Hid & Hne & (first & Hfirst & Hsame) & Hmax & _) Hr Hlt.
  assert (get0 (score (_merge_results e r)) = get0 (score r)) as Hscore.
  { cbn [_merge_results score get0 from_option]. unfold Datatypes.id.
    rewrite py_max_Rmax. apply Rmax_right. lra. }
  split; [done|]. split; [done|]. split; [|split].
  - exists first. split; [by rewrite first_with_id_snoc, Hfirst | exact Hsame].
  - intros x Hx Hxid. rewrite Hscore.
    apply elem_of_app in Hx as [Hx|Hx].
    + specialize (Hmax x Hx Hxid). lra.
    + apply list_elem_of_singleton in Hx. subst. lra.
  - exists r. split; [apply elem_of_app; right; by apply list_elem_of_singleton|].
    split; [done | by rewrite Hscore].
Qed.

Lemma kept_for_first id done r :
  memory_id r = Some id -> id <> "" ->
  (forall x, x ∈ done -> memory_id x <> Some id) ->
  kept_for id (done ++ [r]) r.
Proof.
  intros Hid Hne Hnew. split; [done|]. split; [done|]. split; [|split].
  - exists r. split; [|by repeat split].
    rewrite first_with_id_snoc, first_with_id_None by done.
    by rewrite bool_decide_eq_true_2.
  - intros x Hx Hxid. apply elem_of_app in Hx as [Hx|Hx].
    + by destruct (Hnew x Hx).
    + apply list_elem_of_singleton in Hx. subst. lra.
  - exists r. split; [apply elem_of_app; right; by apply list_elem_of_singleton|].
    done.
Qed.

Lemma dedup_step_inv seen done r :
  dedup_inv seen done -> dedup_inv (dedup_step seen r) (done ++ [r]).
Proof.
  intros (Hwf & Hall & Hkeys).
  split; [by apply dedup_step_wf|]. split.
  2:{ intros x id Hx Hxid Hne. apply dedup_step_keys.
      apply elem_of_app in Hx as [Hx|Hx]; [left; by eapply Hkeys|].
      apply list_elem_of_singleton in Hx. subst. by right. }
  destruct Hwf as [Hnd Hwf].
  assert (forall k e, (k, e) ∈ seen -> k <> "") as Hkne.
  { intros k e Hin. rewrite Forall_forall in Hwf.
    by destruct (Hwf _ Hin) as [_ ?]. }
  unfold dedup_step.
  destruct (memory_id r) as [id|] eqn:Hid.
  2:{ eapply Forall_impl; [exact Hall|]. intros [k e] Hk.
      apply kept_for_unchanged; [exact Hk | by rewrite Hid]. }
  destruct (String.eqb_spec id "") as [->|Hne].
  { rewrite Forall_forall in Hall |- *. intros [k e] Hin.
    apply kept_for_unchanged; [by apply Hall|]. rewrite Hid. intros [= <-].
    by destruct (Hkne _ _ Hin). }
  destruct (seen_get seen id) as [existing|] eqn:Hget.
  - apply seen_get_Some in Hget.
    destruct (Rgt_dec _ _) as [Hgt|Hle].
    + unfold seen_replace. apply Forall_fmap.
      eapply Forall_impl; [exact Hall|]. intros [k e] Hk. simpl in *.
      destruct (String.eqb_spec k id) as [->|Hkid]; simpl.
      * apply kept_for_merged; [|done|].
        -- rewrite Forall_forall in Hall. apply (Hall _ Hget).
        -- exact Hgt.
      * apply kept_for_unchanged; [done|]. rewrite Hid. congruence.
    + rewrite Forall_forall in Hall |- *. intros [k e] Hin.
      apply kept_for_unchanged; [by apply Hall|]. rewrite Hid. intros [= <-].
      rewrite (seen_one_entry_per_key seen id e existing Hnd Hin Hget).
      simpl in *. lra.
  - apply seen_get_None in Hget.
    apply Forall_app. split.
    + rewrite Forall_forall in Hall |- *. intros [k e] Hin.
      apply kept_for_unchanged; [by apply Hall|]. rewrite Hid. intros [= <-].
      destruct Hget. apply list_elem_of_fmap. by exists (id, e).
    + apply Forall_singleton. simpl. apply kept_for_first; [done|done|].
      intros x Hx Hxid. apply Hget. by eapply Hkeys.
Qed.

Lemma dedup_fold_inv results seen done :
  dedup_inv seen done ->
  dedup_inv (foldl dedup_step seen results) (done ++ results).
Proof.
  revert seen done.
  induction results as [|r results IH]; intros seen done Hinv; simpl.
  - by rewrite app_nil_r.
  - rewrite (cons_middle r), app_assoc. by apply IH, dedup_step_inv.
Qed.

(** X11.  [_deduplicate]: every record it returns stands for one non-empty
    memory_id of the input; its content, reliability, creation time and
    access count are those of the FIRST input result with that id, and its
    score is the greatest score among the input results with that id. *)
Theorem deduplicate_keeps_first_identity_and_best_score
  (results : list result) (kept : result) :
  kept ∈ _deduplicate results ->
  exists id first,
    memory_id kept = Some id /\ id <> ""
    /\ first_with_id id results = Some first /\ same_memory kept first
    /\ (forall r, r ∈ results -> memory_id r = Some id ->
          get0 (score r) <= get0 (score kept))
    /\ (exists r, r ∈ results /\ memory_id r = Some id
                  /\ get0 (score r) = get0 (score kept)).
Proof.
  unfold _deduplicate. intros Hin.
  apply list_elem_of_fmap in Hin as ([id e] & -> & Hin).
  assert (dedup_inv [] []) as Hinit.
  { split; [apply seen_wf_nil|]. split; [constructor|].
    intros r k Hr. by apply elem_of_nil in Hr. }
  destruct (dedup_fold_inv results [] [] Hinit) as (_ & Hall & _).
  rewrite Forall_forall in Hall.
  destruct (Hall _ Hin) as (Hid & Hne & (first & Hfirst & Hsame) & Hmax & Hex).
  exists id, first. simpl in *. done.
Qed.

Lemma deduplicate_scenario_B_keeps_keyword_identity :
  _merge_results keyword_hit vector_hit
    ∈ _deduplicate [keyword_hit; vector_hit]
  /\ exists id first,
       memory_id (_merge_results keyword_hit vector_hit) = Some id
       /\ id <> ""
       /\ first_with_id id [keyword_hit; vector_hit] = Some first
       /\ same_memory (_merge_results keyword_hit vector_hit) first
       /\ (forall r, r ∈ [keyword_hit; vector_hit] -> memory_id r = Some id ->
             get0 (score r)
             <= get0 (score (_merge_results keyword_hit vector_hit)))
       /\ (exists r, r ∈ [keyword_hit; vector_hit] /\ memory_id r = Some id
                     /\ get0 (score r)
                        = get0 (score (_merge_results keyword_hit vector_hit))).
Proof.
  assert (_merge_results keyword_hit vector_hit
            ∈ _deduplicate [keyword_hit; vector_hit]) as Hin.
  { rewrite (dedup_pair keyword_hit vector_hit "m1");
      [apply list_elem_of_singleton; reflexivity
      | discriminate | reflexivity | reflexivity | cbn; lra]. }
  split; [exact Hin|].
  exact (deduplicate_keeps_first_identity_and_best_score
           [keyword_hit; vector_hit] (_merge_results keyword_hit vector_hit)
           Hin).
Defined.

(** ** Reranking with the conversation context *)

Lemma context_boost_nonneg topics entities r :
  0 <= context_boost topics entities r.
Proof.
  unfold context_boost.
  set (start := if Nat.eqb _ 0 then _ else _).
  assert (0 <= start) as Hstart.
  { subst start. destruct (Nat.eqb _ 0); [lra|].
    pose proof (pos_INR (size (topics ∩ list_to_set (default [] (keywords r))))).
    lra. }
  revert Hstart. generalize start. clear start.
  induction (elements entities) as [|e es IH]; intros start Hstart; simpl;
    [done|].
  apply IH. destruct (Text.contains _ _); lra.
Qed.

Lemma boosted_score topics entities r :
  let before := sort_key (fields r) in
  let after := sort_key (fields (boosted topics entities r)) in
  after <= 1 /\ after <= before + 3 / 10 /\ (before <= 1 -> before <= after).
Proof.
  cbn zeta. unfold boosted, sort_key. cbn [fields set_score score get0 default
    from_option]. unfold Datatypes.id.
  pose proof (context_boost_nonneg topics entities r) as Hb.
  set (b := context_boost topics entities r) in *.
  set (old := from_option (fun x => x) 0 (score (fields r))).
  unfold Rmin. repeat destruct (Rle_dec _ _); lra.
Qed.

(** X12.  [rerank_with_context]: an empty context returns the results as
    they are.  Any other context returns the boosted results (everything but
    [score] unchanged) in descending order of the new score, results of
    equal new score in their input order; every new score is at most 1
    and at most 0.3 above the old one, and not below an old score that
    was itself at most 1. *)
Theorem rerank_with_context_boost_is_capped
  (results : list keyed_result) (context : gmap string (list string)) :
  (context = ∅ -> rerank_with_context results context = results)
  /\ (context <> ∅ ->
      exists topics entities : gset string,
        let key := fun r => sort_key (fields r) in
        let raised := boosted topics entities <$> results in
        let reranked := rerank_with_context results context in
        reranked ≡ₚ raised
        /\ descending key reranked
        /\ (forall v, filter (fun r => key r = v) reranked
                      = filter (fun r => key r = v) raised)
        /\ Forall2 (fun r r' =>
                      keywords r' = keywords r
                      /\ (exists s, fields r' = set_score (fields r) s)
                      /\ key r' <= 1 /\ key r' <= key r + 3 / 10
                      /\ (key r <= 1 -> key r <= key r'))
             results raised).
Proof.
  unfold rerank_with_context. split; intros Hctx.
  - by rewrite decide_True.
  - rewrite decide_False by done.
    exists (list_to_set (default [] (context !! "topics"))),
           (list_to_set (default [] (context !! "entities"))).
    cbn zeta. split; [apply sort_desc_perm|].
    split; [apply sort_desc_sorted|].
    split; [intros v; apply sort_desc_stable|].
    apply Forall2_fmap_r, Forall_Forall2_diag, Forall_forall.
    intros r _. split; [reflexivity|]. split; [by eexists|].
    apply boosted_score.
Qed.

(** ** Ranking with the weights of a query type *)

Lemma weights_for_cases query_type :
  weights_nonneg (weights_for query_type)
  /\ weight_total (weights_for query_type) = 1.
Proof.
  unfold weights_for, weights_nonneg, weight_total.
  repeat destruct (String.eqb query_type _); cbn;
    unfold settings_keyword_match_weight, settings_vector_similarity_weight,
      settings_reliability_weight, settings_recency_weight,
      settings_frequency_weight; lra.
Qed.

(** X13.  [AdaptiveHybridRanker.rank_for_query_type]: whatever weights the
    ranker was constructed with, the call replaces them by the weights of
    the query type, which are non-negative and sum to exactly 1; so every
    record returned has its score in [0,1] when the stored reliabilities
    are, and a query type other than recall, question and conversation
    ranks as a ranker constructed without arguments does. *)
Theorem rank_for_query_type_scores_in_unit
  (self : ranker) (results : list result) (query_type : string) :
  Forall reliability_in_unit results ->
  let (self', ranked) := rank_for_query_type self results query_type in
  weight_total self' = 1
  /\ self' = weights_for query_type
  /\ Forall (fun r => exists s, score r = Some s /\ 0 <= s <= 1) ranked
  /\ (query_type <> "recall" -> query_type <> "question" ->
      query_type <> "conversation" ->
      self' = default_ranker /\ ranked = rank default_ranker results true).
Proof.
  intros Hall. unfold rank_for_query_type.
  destruct (weights_for_cases query_type) as [Hnn Htotal].
  split; [done|]. split; [done|]. split.
  - apply Forall_forall. intros ranked Hin.
    apply rank_elem_scored in Hin as (r & -> & Hr).
    assert (reliability_in_unit r) as Hrel.
    { pose proof (deduplicate_Forall reliability_in_unit results
                    (fun a b Ha => Ha) Hall) as Hd.
      rewrite Forall_forall in Hd. by apply Hd. }
    exists (s_combined (_calculate_scores (weights_for query_type) r)).
    split; [reflexivity|].
    destruct (combined_score_bounds (weights_for query_type) r Hnn Hrel)
      as [[Hlo _] Hhi].
    split; [done|]. apply Hhi. lra.
  - intros H1 H2 H3.
    assert (weights_for query_type = default_ranker) as ->; [|done].
    unfold weights_for.
    destruct (String.eqb_spec query_type "recall"); [done|].
    destruct (String.eqb_spec query_type "question"); [done|].
    destruct (String.eqb_spec query_type "conversation"); [done|].
    symmetry. apply default_ranker_weights.
Qed.

Lemma rank_for_query_type_on_scenario_B :
  Forall reliability_in_unit [keyword_hit; vector_hit]
  /\ Forall (fun r => exists s, score r = Some s /\ 0 <= s <= 1)
       (rank_for_query_type drifted_ranker [keyword_hit; vector_hit]
          "recall").2.
Proof.
  assert (Forall reliability_in_unit [keyword_hit; vector_hit]) as Hall.
  { repeat constructor; unfold reliability_in_unit; cbn; lra. }
  split; [exact Hall|].
  pose proof (rank_for_query_type_scores_in_unit drifted_ranker
                [keyword_hit; vector_hit] "recall" Hall) as H.
  destruct (rank_for_query_type drifted_ranker [keyword_hit; vector_hit]
              "recall") as [self' ranked].
  exact (proj1 (proj2 (proj2 H))).
Defined.

End HybridRankerMoreProofs.

(** * The query analyzer and the retrieval service: keywords, confidence,
    memory kinds *)

Module QueryAnalyzerMoreProofs.
Import Text QueryAnalyzer QueryAnalyzerSpec QueryAnalyzerProofs.
Import QueryAnalyzerMoreSpec ContextBuilderMoreSpec.

(** ** Keyword extraction *)

Lemma unique_fold keywords seen unique_keywords :
  seen = list_to_set unique_keywords -> NoDup unique_keywords ->
  let out := (foldl unique_step (seen, unique_keywords) keywords).2 in
  NoDup out /\ (forall k, k ∈ out <-> k ∈ unique_keywords \/ k ∈ keywords).
Proof.
  revert seen unique_keywords.
  induction keywords as [|k keywords IH]; intros seen acc Hseen Hnd; cbn zeta.
  - simpl. split; [done|]. intros k. rewrite elem_of_nil. tauto.
  - cbn [foldl].
    destruct (decide (k ∈ seen)) as [Hin|Hnin].
    + replace (unique_step (seen, acc) k) with (seen, acc)
        by (unfold unique_step; by rewrite bool_decide_eq_true_2).
      destruct (IH seen acc Hseen Hnd) as [Hnd' Hel]. split; [done|].
      intros x. rewrite Hel, elem_of_cons.
      subst seen. apply elem_of_list_to_set in Hin.
      split; [tauto|]. intros [?|[->|?]]; tauto.
    + assert (k ∉ acc) as Hk.
      { subst seen. by rewrite elem_of_list_to_set in Hnin. }
      replace (unique_step (seen, acc) k)
        with ({[k]} ∪ seen, (acc ++ [k])%list)
        by (unfold unique_step; by rewrite bool_decide_eq_false_2).
      destruct (IH ({[k]} ∪ seen) (acc ++ [k])%list) as [Hnd' Hel].
      * subst seen. rewrite list_to_set_app_L. simpl.
        rewrite (right_id_L ∅ (∪)). apply (comm_L (∪)).
      * apply NoDup_app. split; [done|]. split; [|apply NoDup_singleton].
        intros x Hx Hx'. apply list_elem_of_singleton in Hx'. by subst.
      * split; [done|]. intros x.
        rewrite Hel, elem_of_app, list_elem_of_singleton, elem_of_cons. tauto.
Qed.

Lemma kept_words (query : string) (w : string) :
  w ∈ List.filter
        (fun w => bool_decide (w ∉ stopwords) && (2 <? String.length w)%nat)
        (word_runs (lower query))
  <-> w ∈ word_runs (lower query) /\ content_word w.
Proof.
  rewrite list_elem_of_In, filter_In.
  rewrite <- list_elem_of_In, andb_true_iff, bool_decide_eq_true.
  rewrite Nat.ltb_lt. reflexivity.
Qed.

Lemma extract_keywords_content_words (query : string) :
  Forall (fun k => k ∈ word_runs (lower query) /\ content_word k)
    (_extract_keywords query).
Proof.
  unfold _extract_keywords.
  set (kept := List.filter _ (word_runs (lower query))).
  destruct (unique_fold kept ∅ []) as [_ Hel]; [done|constructor|].
  cbn zeta in Hel.
  apply Forall_forall. intros k Hk.
  apply kept_words. apply elem_of_take in Hk as (i & Hk & _).
  apply list_elem_of_lookup_2 in Hk. apply Hel in Hk as [Hk|Hk]; [|done].
  by apply elem_of_nil in Hk.
Qed.

(** X14.  [_extract_keywords]: at most 15 keywords, no keyword twice; every
    keyword is a word of the lower-cased query that is no stopword and has
    more than two characters; and when fewer than 15 come back, every such
    word of the query is among them. *)
Theorem extract_keywords_are_distinct_content_words (query : string) :
  let keywords := _extract_keywords query in
  (length keywords <= 15)%nat
  /\ NoDup keywords
  /\ Forall (fun k => k ∈ word_runs (lower query) /\ content_word k) keywords
  /\ ((length keywords < 15)%nat ->
      forall w, w ∈ word_runs (lower query) -> content_word w ->
                w ∈ keywords).
Proof.
  cbn zeta. split; [unfold _extract_keywords; rewrite length_take; lia|].
  split; [|split; [apply extract_keywords_content_words|]].
  - unfold _extract_keywords.
    set (kept := List.filter _ (word_runs (lower query))).
    destruct (unique_fold kept ∅ []) as [Hnd _]; [done|constructor|].
    eapply sublist_NoDup; [exact Hnd | apply sublist_take].
  - unfold _extract_keywords.
    set (kept := List.filter _ (word_runs (lower query))).
    destruct (unique_fold kept ∅ []) as [_ Hel]; [done|constructor|].
    cbn zeta in Hel. intros Hlen w Hw Hcw.
    rewrite take_ge by (rewrite length_take in Hlen; lia).
    apply Hel. right. by apply kept_words.
Qed.


(** ** Confidence *)

Ltac confidence_cases :=
  unfold _calculate_confidence;
  repeat match goal with
         | |- context [if ?b then _ else _] =>
             match b with
             | Qle_bool _ _ => fail 1
             | _ => destruct b
             end
         end;
  apply Qle_bool_iff; vm_compute; reflexivity.

Lemma confidence_at_least_four_tenths intent keywords query :
  (4 # 10 <= _calculate_confidence intent keywords query)%Q.
Proof. confidence_cases. Qed.

Lemma confidence_at_most_one intent keywords query :
  (_calculate_confidence intent keywords query <= 1)%Q.
Proof. confidence_cases. Qed.

Lemma recall_confidence keywords query :
  (6 # 10 <= _calculate_confidence "recall" keywords query)%Q.
Proof. unfold _calculate_confidence. rewrite String.eqb_refl. confidence_cases. Qed.

Lemma analyze_fields extract_topics detect_entities query a :
  analyze extract_topics detect_entities query = Some a ->
  intent a = _detect_intent (strip (lower query))
  /\ keywords a = _extract_keywords query
  /\ memory_types_needed a
     = _determine_memory_types (intent a) (strip (lower query))
  /\ confidence a
     = _calculate_confidence (intent a) (keywords a) (strip (lower query)).
Proof.
  unfold analyze, validated. cbn [confidence].
  rewrite confidence_in_unit. intros [= <-]. by cbn.
Qed.

(** X15.  [_calculate_confidence] stays between 0.4 and 1.0, so the final
    [min(1.0, max(0.0, confidence))] changes nothing; and the analysis of a
    query with intent [recall] has confidence at least 0.6: the analyzer
    with the language model never asks for an enhancement of a recall. *)
Theorem confidence_range_and_recall_is_never_low :
  (forall intent keywords query,
     (4 # 10 <= _calculate_confidence intent keywords query)%Q
     /\ (_calculate_confidence intent keywords query <= 1)%Q)
  /\ (forall extract_topics detect_entities query a,
        analyze extract_topics detect_entities query = Some a ->
        (4 # 10 <= confidence a)%Q /\ (confidence a <= 1)%Q
        /\ (intent a = "recall" -> low_confidence a = false)).
Proof.
  split.
  - intros. split;
      [apply confidence_at_least_four_tenths | apply confidence_at_most_one].
  - intros extract_topics detect_entities query a Ha.
    destruct (analyze_fields _ _ _ _ Ha) as (_ & _ & _ & Hc).
    rewrite Hc.
    split; [apply confidence_at_least_four_tenths|].
    split; [apply confidence_at_most_one|].
    intros Hrecall. unfold low_confidence. rewrite Hc, Hrecall.
    apply negb_false_iff, Qle_bool_iff, recall_confidence.
Qed.

(** ** The memory kinds that retrieval searches *)

Lemma analyzer_memory_types intent query :
  "profile" ∈ _determine_memory_types intent query
  /\ NoDup (_determine_memory_types intent query)
  /\ Forall (fun k => k ∈ memory_kinds) (_determine_memory_types intent query)
  /\ _determine_memory_types intent query <> [].
Proof.
  unfold _determine_memory_types, memory_kinds.
  repeat match goal with
         | |- context [if ?b then _ else _] => destruct b
         end;
    cbn [app];
    (split; [rewrite !elem_of_cons; tauto|]);
    (split; [apply (bool_decide_unpack _); vm_compute; exact I|]);
    (split; [|discriminate]);
    repeat (apply Forall_cons; split; [rewrite !elem_of_cons; tauto|]);
    apply Forall_nil_2.
Qed.

(** X16.  The retrieval service searches exactly the memory kinds that the
    analyzer names: for an analysis returned by [analyze] the list is
    never empty, so the service's own table by intent is not consulted;
    the kinds are distinct, among the four known ones, and always include
    [profile].  [retrieve_for_context] builds its analysis without the
    list, and then only episodic and semantic memories are searched. *)
Theorem retrieval_searches_the_kinds_the_analyzer_names :
  (forall extract_topics detect_entities query,
     exists a,
       analyze extract_topics detect_entities query = Some a
       /\ RetrievalService._determine_memory_types a
          = QueryAnalyzer._determine_memory_types
              (_detect_intent (strip (lower query))) (strip (lower query))
       /\ "profile" ∈ RetrievalService._determine_memory_types a
       /\ NoDup (RetrievalService._determine_memory_types a)
       /\ Forall (fun k => k ∈ memory_kinds)
            (RetrievalService._determine_memory_types a))
  /\ (forall query,
        exists a,
          RetrievalService.context_analysis query = Some a
          /\ RetrievalService._determine_memory_types a
             = ["episodic"; "semantic"]).
Proof.
  split.
  - intros extract_topics detect_entities query.
    destruct (analyze_total extract_topics detect_entities query) as [a Ha].
    exists a. split; [done|].
    destruct (analyze_fields _ _ _ _ Ha) as (Hi & _ & Hm & _).
    assert (RetrievalService._determine_memory_types a
            = _determine_memory_types (_detect_intent (strip (lower query)))
                (strip (lower query))) as ->.
    { unfold RetrievalService._determine_memory_types.
      rewrite Hi in Hm |- *. rewrite Hm. clear Hm.
      pose proof (analyzer_memory_types
                    (_detect_intent (strip (lower query)))
                    (strip (lower query))) as (_ & _ & _ & Hne).
      destruct (_determine_memory_types _ _); [by destruct Hne | reflexivity]. }
    split; [done|].
    pose proof (analyzer_memory_types
                  (_detect_intent (strip (lower query)))
                  (strip (lower query))) as (? & ? & ? & _).
    done.
  - intros query. eexists. split; reflexivity.
Qed.

(** ** The analyzer's keywords as a BM25 query *)

Lemma string_forall_app P s t :
  string_forall P (s ++ t) = string_forall P s && string_forall P t.
Proof.
  induction s as [|c s IH]; simpl; [done|]. by rewrite IH, andb_assoc.
Qed.

Lemma lower_char_idemp c : lower_char (lower_char c) = lower_char c.
Proof. destruct c as [[] [] [] [] [] [] [] []]; vm_compute; reflexivity. Qed.

Lemma lower_is_lower s : string_forall is_lower (lower s) = true.
Proof.
  induction s as [|c s IH]; simpl; [done|].
  rewrite IH, andb_true_r. unfold is_lower.
  rewrite lower_char_idemp. apply Ascii.eqb_refl.
Qed.

Lemma lower_fixed s : string_forall is_lower s = true -> lower s = s.
Proof.
  induction s as [|c s IH]; simpl; [done|].
  intros [Hc Hs]%andb_true_iff. rewrite IH by done.
  unfold is_lower in Hc. apply Ascii.eqb_eq in Hc. by rewrite Hc.
Qed.

Lemma append_nonempty (s : string) c : s ++ String c "" <> "".
Proof. by destruct s. Qed.

Lemma word_runs_from_words P s cur :
  string_forall P s = true ->
  string_forall is_word cur = true -> string_forall P cur = true ->
  Forall (word P) (word_runs_from s cur).
Proof.
  revert cur. induction s as [|c s IH]; intros cur Hs Hw Hp; simpl.
  - destruct (String.eqb_spec cur ""); [constructor|].
    by repeat constructor.
  - simpl in Hs. apply andb_true_iff in Hs as [Hc Hs].
    destruct (is_word c) eqn:Hwc.
    + apply IH; [done| |]; rewrite string_forall_app; simpl;
        [by rewrite Hw, Hwc | by rewrite Hp, Hc].
    + destruct (String.eqb_spec cur "").
      * by apply IH.
      * constructor; [done|]. by apply IH.
Qed.

Lemma append_empty_r (s : string) : s ++ "" = s.
Proof.
  induction s as [|c s IH]; [done|].
  change (String c (s ++ "") = String c s). by rewrite IH.
Qed.

Lemma append_snoc (s : string) c t : (s ++ String c "") ++ t = s ++ String c t.
Proof.
  induction s as [|d s IH]; [done|].
  change (String d ((s ++ String c "") ++ t) = String d (s ++ String c t)).
  by rewrite IH.
Qed.

Lemma word_runs_from_word w rest cur :
  string_forall is_word w = true ->
  word_runs_from (w ++ rest) cur = word_runs_from rest (cur ++ w).
Proof.
  revert cur. induction w as [|c w IH]; intros cur; simpl.
  - intros _. by rewrite append_empty_r.
  - intros [Hc Hw]%andb_true_iff. rewrite Hc, IH by done.
    by rewrite append_snoc.
Qed.

Lemma word_runs_join P (ws : list string) :
  Forall (word P) ws -> word_runs (String.concat " " ws) = ws.
Proof.
  unfold word_runs. induction 1 as [|w ws (Hne & Hw & _) Hws IH]; [done|].
  destruct ws as [|w' ws].
  - simpl. rewrite <- (append_empty_r w) at 1.
    rewrite word_runs_from_word by done.
    change ("" ++ w) with w. cbn [word_runs_from].
    by destruct (String.eqb_spec w "").
  - change (String.concat " " (w :: w' :: ws))
      with (w ++ String " " (String.concat " " (w' :: ws))).
    rewrite word_runs_from_word by done.
    change ("" ++ w) with w. cbn [word_runs_from].
    change (is_word " ") with false. cbn iota.
    destruct (String.eqb_spec w ""); [done|]. by rewrite IH.
Qed.

Lemma join_forall P (ws : list string) :
  P " "%char = true -> Forall (fun w => string_forall P w = true) ws ->
  string_forall P (String.concat " " ws) = true.
Proof.
  intros Hsp. induction 1 as [|w ws Hw Hws IH]; [done|].
  destruct ws as [|w' ws]; [done|].
  change (String.concat " " (w :: w' :: ws))
    with (w ++ String " " (String.concat " " (w' :: ws))).
  rewrite string_forall_app. cbn [string_forall]. by rewrite Hw, Hsp, IH.
Qed.

Lemma search_stopwords_are_analyzer_stopwords w :
  w ∈ KeywordSearch.stopwords -> w ∈ stopwords.
Proof.
  unfold KeywordSearch.stopwords, stopwords.
  rewrite !elem_of_list_to_set.
  revert w. apply Forall_forall.
  apply (bool_decide_unpack _). vm_compute. exact I.
Qed.

Lemma filter_all {A : Type} (p : A -> bool) (l : list A) :
  Forall (fun x => p x = true) l -> List.filter p l = l.
Proof. induction 1 as [|x l Hx Hl IH]; simpl; [done|]. by rewrite Hx, IH. Qed.

(** X17.  The keywords that [_extract_keywords] returns pass unchanged through
    the keyword retrieval: joined with spaces into the BM25 query string
    and tokenized again by [KeywordSearch.tokenize], they give back the
    same list, none lost, split, lower-cased or filtered out. *)
Theorem analyzer_keywords_survive_tokenization (query : string) :
  RetrievalService.keyword_query_tokens (_extract_keywords query)
  = _extract_keywords query.
Proof.
  pose proof (extract_keywords_content_words query) as Hall.
  assert (Forall (word is_lower) (_extract_keywords query)) as Hw.
  { pose proof (word_runs_from_words is_lower (lower query) ""
                  (lower_is_lower query) eq_refl eq_refl) as Hruns.
    rewrite Forall_forall in Hall, Hruns |- *.
    intros k Hk. apply Hruns. by apply (Hall k Hk). }
  assert (Forall content_word (_extract_keywords query)) as Hc.
  { eapply Forall_impl; [exact Hall|]. by intros k [_ ?]. }
  unfold RetrievalService.keyword_query_tokens, KeywordSearch.tokenize.
  cbn zeta.
  assert (lower (String.concat " " (_extract_keywords query))
          = String.concat " " (_extract_keywords query)) as ->.
  { apply lower_fixed, join_forall; [done|].
    eapply Forall_impl; [exact Hw|]. by intros w (_ & _ & ?). }
  rewrite (word_runs_join is_lower) by done.
  destruct (String.eqb_spec (String.concat " " (_extract_keywords query)) "")
    as [Hempty|_].
  - pose proof (word_runs_join is_lower _ Hw) as Hruns.
    rewrite Hempty in Hruns. by rewrite <- Hruns.
  - apply filter_all. eapply Forall_impl; [exact Hc|].
    intros w [Hstop Hlen]. apply andb_true_iff. split.
    + apply bool_decide_eq_true. intros Hin.
      by apply Hstop, search_stopwords_are_analyzer_stopwords.
    + by apply Nat.ltb_lt.
Qed.

End QueryAnalyzerMoreProofs.

(** * The keyword search: frequent keywords, matching keywords *)

Module KeywordSearchProofs.
Import Text KeywordSearch KeywordSearchSpec.

Lemma occurrences_snoc w l t :
  occurrences w (l ++ [t])
  = (occurrences w l + if decide (t = w) then 1 else 0)%nat.
Proof.
  unfold occurrences. rewrite filter_app, length_app, filter_cons, filter_nil.
  by destruct (decide (t = w)).
Qed.

Lemma occurrences_absent w l : w ∉ l -> occurrences w l = 0%nat.
Proof.
  unfold occurrences. induction l as [|x l IH]; [done|].
  rewrite not_elem_of_cons. intros [Hne Hl]. rewrite filter_cons.
  destruct (decide (x = w)); [congruence | by apply IH].
Qed.

Lemma bump_keys freq t :
  (bump freq t).*1
  = if decide (t ∈ freq.*1) then freq.*1 else (freq.*1 ++ [t])%list.
Proof.
  induction freq as [|[k n] freq IH]; cbn [bump fmap list_fmap].
  - destruct (decide _) as [H|_]; [by apply elem_of_nil in H | reflexivity].
  - destruct (String.eqb_spec k t) as [->|Hne]; cbn [fmap list_fmap fst].
    + clear IH. destruct (decide _) as [_|H]; [reflexivity|].
      destruct H. apply elem_of_cons. by left.
    + change (list_fmap _ _ fst (bump freq t)) with ((bump freq t).*1).
      rewrite IH. change (list_fmap _ _ fst freq) with (freq.*1).
      destruct (decide (t ∈ freq.*1)) as [Hin|Hnin];
        destruct (decide (t ∈ k :: freq.*1)) as [Hin'|Hnin'];
        try reflexivity.
      * destruct Hnin'. apply elem_of_cons. by right.
      * apply elem_of_cons in Hin' as [?|?]; [congruence | done].
Qed.

Lemma counted_other done t e :
  counted done e -> e.1 <> t -> counted (done ++ [t]) e.
Proof.
  intros [Hn Hin] Hne. split.
  - rewrite occurrences_snoc, decide_False by congruence. lia.
  - apply elem_of_app. by left.
Qed.

Lemma bump_counted freq t done :
  NoDup freq.*1 -> Forall (counted done) freq ->
  (t ∉ freq.*1 -> occurrences t done = 0%nat) ->
  Forall (counted (done ++ [t])) (bump freq t).
Proof.
  induction freq as [|[k n] freq IH]; intros Hnd Hall Hnew; simpl.
  - apply Forall_singleton. split; simpl.
    + rewrite occurrences_snoc, decide_True by done.
      rewrite Hnew by apply not_elem_of_nil. done.
    + apply elem_of_app. right. by apply list_elem_of_singleton.
  - simpl in Hnd. apply NoDup_cons in Hnd as [Hk Hnd].
    apply Forall_cons in Hall as [[Hn Hin] Hall]. simpl in Hn, Hin.
    destruct (String.eqb_spec k t) as [->|Hne].
    + apply Forall_cons. split.
      * split; simpl.
        -- rewrite occurrences_snoc, decide_True by done. lia.
        -- apply elem_of_app. by left.
      * rewrite Forall_forall in Hall |- *. intros e He.
        apply counted_other; [by apply Hall|].
        intros <-. apply Hk. apply list_elem_of_fmap. by exists e.
    + apply Forall_cons. split.
      * by apply (counted_other done t (k, n)).
      * apply IH; [done|done|]. intros Ht. apply Hnew.
        rewrite fmap_cons, not_elem_of_cons. split; [simpl; congruence | done].
Qed.

Lemma bump_inv freq done t :
  freq_inv freq done -> freq_inv (bump freq t) (done ++ [t]).
Proof.
  intros (Hnd & Hall & Hcover). split; [|split].
  - rewrite bump_keys. destruct (decide (t ∈ freq.*1)); [done|].
    apply NoDup_app. split; [done|]. split; [|apply NoDup_singleton].
    intros x Hx Hx'. apply list_elem_of_singleton in Hx'. by subst.
  - apply bump_counted; [done|done|].
    intros Ht. apply occurrences_absent. intros Hin. by apply Ht, Hcover.
  - intros w Hw. rewrite bump_keys.
    apply elem_of_app in Hw as [Hw|Hw].
    + destruct (decide (t ∈ freq.*1)); [by apply Hcover|].
      apply elem_of_app. left. by apply Hcover.
    + apply list_elem_of_singleton in Hw. subst.
      destruct (decide (t ∈ freq.*1)); [done|].
      apply elem_of_app. right. by apply list_elem_of_singleton.
Qed.

Lemma bump_fold_inv tokens freq done :
  freq_inv freq done -> freq_inv (foldl bump freq tokens) (done ++ tokens).
Proof.
  revert freq done.
  induction tokens as [|t tokens IH]; intros freq done Hinv; simpl.
  - by rewrite app_nil_r.
  - rewrite (cons_middle t), app_assoc. by apply IH, bump_inv.
Qed.

Lemma insert_by_count_perm x l : insert_by_count x l ≡ₚ x :: l.
Proof.
  induction l as [|y l IH]; simpl; [done|].
  destruct (_ <? _)%nat; [|done]. rewrite IH. apply Permutation_swap.
Qed.

Lemma sort_by_count_perm l : sort_by_count l ≡ₚ l.
Proof.
  induction l as [|x l IH]; simpl; [done|].
  rewrite insert_by_count_perm. by rewrite IH.
Qed.

Lemma insert_by_count_sorted x l :
  StronglySorted by_count l -> StronglySorted by_count (insert_by_count x l).
Proof.
  induction 1 as [|y l Hl IH Hy]; simpl.
  - repeat constructor.
  - destruct (Nat.ltb_spec x.2 y.2) as [Hlt|Hge].
    + constructor; [exact IH|].
      rewrite Forall_forall. intros z Hz.
      rewrite insert_by_count_perm in Hz. apply elem_of_cons in Hz as [->|Hz].
      * unfold by_count. lia.
      * rewrite Forall_forall in Hy. by apply Hy.
    + constructor; [by constructor|].
      constructor; [exact Hge|].
      eapply Forall_impl; [exact Hy|]. unfold by_count. intros z Hz. lia.
Qed.

Lemma sort_by_count_sorted l : StronglySorted by_count (sort_by_count l).
Proof.
  induction l as [|x l IH]; simpl; [constructor|].
  by apply insert_by_count_sorted.
Qed.

Lemma sorted_app_inv {A : Type} (R : A -> A -> Prop) (l1 l2 : list A) :
  StronglySorted R (l1 ++ l2) ->
  StronglySorted R l1 /\ (forall a b, a ∈ l1 -> b ∈ l2 -> R a b).
Proof.
  induction l1 as [|x l1 IH]; simpl; intros Hs.
  - split; [constructor|]. intros a b Ha. by apply elem_of_nil in Ha.
  - apply StronglySorted_inv in Hs as [Hs Hx].
    destruct (IH Hs) as [Hs1 Hcross]. apply Forall_app in Hx as [Hx1 Hx2].
    split; [by constructor|].
    intros a b Ha Hb. apply elem_of_cons in Ha as [->|Ha].
    + rewrite Forall_forall in Hx2. by apply Hx2.
    + by apply Hcross.
Qed.

Lemma sorted_fmap {A B : Type} (R : A -> A -> Prop) (R' : B -> B -> Prop)
  (P : A -> Prop) (f : A -> B) (l : list A) :
  (forall a b, P a -> P b -> R a b -> R' (f a) (f b)) ->
  Forall P l -> StronglySorted R l -> StronglySorted R' (f <$> l).
Proof.
  intros Hf Hall Hs. induction Hs as [|x l Hs IH Hx]; simpl; [constructor|].
  apply Forall_cons in Hall as [Hpx Hall].
  constructor; [by apply IH|].
  apply Forall_fmap, Forall_forall. intros y Hy.
  rewrite Forall_forall in Hx, Hall. apply Hf; [done | by apply Hall | by apply Hx].
Qed.

Lemma list_slice_to_take {A : Type} (l : list A) stop :
  exists n, list_slice_to l stop = take n l
            /\ (0 <= stop -> n = Z.to_nat stop).
Proof.
  unfold list_slice_to. destruct (Z.ltb_spec stop 0).
  - eexists. split; [reflexivity|]. lia.
  - eexists. split; [reflexivity|]. done.
Qed.

(** X18.  [extract_keywords] returns distinct tokens of the text, the most
    frequent first: the occurrence counts never increase along the list,
    no token left out occurs more often than a token returned, and with a
    non-negative [max_keywords] at most that many come back. *)
Theorem extract_keywords_most_frequent_first (text : string)
  (max_keywords : Z) :
  let tokens := tokenize text in
  let keywords := extract_keywords text max_keywords in
  NoDup keywords
  /\ (forall k, k ∈ keywords -> k ∈ tokens)
  /\ StronglySorted
       (fun a b => (occurrences b tokens <= occurrences a tokens)%nat)
       keywords
  /\ (forall k w, k ∈ keywords -> w ∈ tokens -> w ∉ keywords ->
        (occurrences w tokens <= occurrences k tokens)%nat)
  /\ (0 <= max_keywords -> (length keywords <= Z.to_nat max_keywords)%nat).
Proof.
  cbn zeta. unfold extract_keywords.
  destruct (tokenize text) as [|t0 ts] eqn:Htok.
  { split; [constructor|]. split; [done|]. split; [constructor|].
    split; [|simpl; lia]. intros k w Hk. by apply elem_of_nil in Hk. }
  rewrite <- Htok. clear t0 ts Htok. set (tokens := tokenize text).
  assert (freq_inv [] []) as Hinit.
  { split; [constructor|]. split; [constructor|].
    intros w Hw. by apply elem_of_nil in Hw. }
  destruct (bump_fold_inv tokens [] [] Hinit) as (Hnd & Hall & Hcover).
  simpl in Hall, Hcover.
  set (freq := foldl bump [] tokens) in *.
  pose proof (sort_by_count_perm freq) as Hperm.
  pose proof (sort_by_count_sorted freq) as Hsorted.
  set (sorted_keywords := sort_by_count freq) in *.
  assert (NoDup sorted_keywords.*1) as Hnd' by (by rewrite Hperm).
  assert (Forall (counted tokens) sorted_keywords) as Hall'
    by (by rewrite Hperm).
  destruct (list_slice_to_take sorted_keywords max_keywords)
    as (n & -> & Hn).
  rewrite <- (take_drop n sorted_keywords) in Hsorted.
  apply sorted_app_inv in Hsorted as [Hs Hcross].
  assert (Forall (counted tokens) (take n sorted_keywords)) as Hall''.
  { rewrite Forall_forall in Hall' |- *. intros e He. apply Hall'.
    eapply elem_of_sublist; [exact He | apply sublist_take]. }
  split; [|split; [|split; [|split]]].
  - rewrite fmap_take. eapply sublist_NoDup; [exact Hnd' | apply sublist_take].
  - intros k Hk. apply list_elem_of_fmap in Hk as (e & -> & He).
    rewrite Forall_forall in Hall''. by destruct (Hall'' e He).
  - apply (sorted_fmap by_count _ (counted tokens)); [|done|done].
    intros a b [Ha _] [Hb _] Hab. unfold by_count in Hab. lia.
  - intros k w Hk Hw Hout.
    apply list_elem_of_fmap in Hk as (e & -> & He).
    apply Hcover in Hw. rewrite <- Hperm in Hw.
    apply list_elem_of_fmap in Hw as (e' & -> & He').
    rewrite <- (take_drop n sorted_keywords) in He'.
    apply elem_of_app in He' as [He'|He'].
    { destruct Hout. apply list_elem_of_fmap. by exists e'. }
    pose proof (Hcross e e' He He') as Hle. unfold by_count in Hle.
    rewrite Forall_forall in Hall', Hall''.
    destruct (Hall'' e He) as [<- _].
    destruct (Hall' e') as [<- _]; [|lia].
    eapply elem_of_sublist; [exact He' | apply sublist_drop].
  - intros Hmax. rewrite length_fmap, length_take, (Hn Hmax). lia.
Qed.

Lemma Qdiv_nat_le_1 (a b : nat) :
  (a <= b)%nat -> (0 < b)%nat ->
  (0 <= Qdiv (inject_Z (Z.of_nat a)) (inject_Z (Z.of_nat b)))%Q
  /\ (Qdiv (inject_Z (Z.of_nat a)) (inject_Z (Z.of_nat b)) <= 1)%Q
  /\ ((Qdiv (inject_Z (Z.of_nat a)) (inject_Z (Z.of_nat b)) == 1)%Q <-> a = b)
  /\ ((Qdiv (inject_Z (Z.of_nat a)) (inject_Z (Z.of_nat b)) == 0)%Q
      <-> a = 0%nat).
Proof.
  intros Hab Hb.
  destruct (Z.of_nat b) as [|p|p] eqn:Hp; [lia| |lia].
  unfold Qdiv, Qinv, Qmult, Qle, Qeq, inject_Z.
  cbn [Qnum Qden]. rewrite ?Pos.mul_1_l, ?Z.mul_1_r.
  repeat split; try lia.
Qed.

(** X19.  [find_matching_keywords]: the matches are the query tokens that are
    among the lower-cased document keywords; the ratio lies in [0,1], is 1
    exactly when the query has a token and every token of it matches, and
    0 exactly when none matches (or the query has no token). *)
Theorem match_ratio_is_the_matched_share (query : string)
  (document_keywords : list string) :
  let query_tokens : gset string := list_to_set (tokenize query) in
  let doc_tokens : gset string := list_to_set (lower <$> document_keywords) in
  let '(matches, ratio) := find_matching_keywords query document_keywords in
  (forall w, w ∈ matches <-> w ∈ query_tokens /\ w ∈ doc_tokens)
  /\ (0 <= ratio)%Q /\ (ratio <= 1)%Q
  /\ ((ratio == 1)%Q <-> query_tokens <> ∅ /\ query_tokens ⊆ doc_tokens)
  /\ ((ratio == 0)%Q <-> forall w, w ∈ query_tokens -> w ∉ doc_tokens).
Proof.
  cbn zeta. unfold find_matching_keywords.
  set (query_tokens := list_to_set (tokenize query) : gset string).
  set (doc_tokens := list_to_set (lower <$> document_keywords) : gset string).
  destruct (bool_decide_reflect (query_tokens = ∅)) as [Hempty|Hne].
  - split; [|split; [done|split; [done|split]]].
    + intros w. rewrite Hempty. split; [intros H|intros [H _]];
        by apply not_elem_of_empty in H.
    + split; [intros H; discriminate H | intros [H _]; done].
    + split; [|done]. intros _ w Hw. rewrite Hempty in Hw.
      by apply not_elem_of_empty in Hw.
  - assert (size (query_tokens ∩ doc_tokens) <= size query_tokens)%nat as Hle.
    { apply subseteq_size. apply intersection_subseteq_l. }
    assert (0 < size query_tokens)%nat as Hpos.
    { destruct (size query_tokens) eqn:Hs; [|lia].
      apply size_empty_iff in Hs. destruct Hne. by apply leibniz_equiv. }
    destruct (Qdiv_nat_le_1 _ _ Hle Hpos) as (H0 & H1 & Hone & Hzero).
    split; [intros w; apply elem_of_intersection|].
    split; [done|]. split; [done|]. split.
    + rewrite Hone. split.
      * intros Hsize. split; [done|]. intros w Hw.
        assert (query_tokens ∩ doc_tokens ≡ query_tokens) as Heq.
        { apply set_subseteq_size_equiv;
            [apply intersection_subseteq_l | lia]. }
        apply Heq in Hw. by apply elem_of_intersection in Hw as [_ ?].
      * intros [_ Hsub]. f_equal. apply leibniz_equiv.
        intros w. rewrite elem_of_intersection. split; [tauto|].
        intros Hw. split; [done | by apply Hsub].
    + rewrite Hzero. rewrite size_empty_iff. split.
      * intros Hno w Hq Hd.
        assert (w ∈ query_tokens ∩ doc_tokens) as Hw
          by (by apply elem_of_intersection).
        apply Hno in Hw. by apply not_elem_of_empty in Hw.
      * intros Hno w. rewrite elem_of_intersection.
        split; [intros [Hq Hd]; by destruct (Hno w Hq) | intros H].
        by apply not_elem_of_empty in H.
Qed.

End KeywordSearchProofs.
